(** * waffle-app: the video ingestion and transcoding pipeline

    A shallow embedding of the Go packages [storage], [auth], [videos] and
    [conversations].  SQL statements are embedded by their SQLite meaning on
    tables kept as lists of rows (in rowid order); the filesystem is a finite
    map from paths to file contents; every call that can fail for a reason
    outside the program (the SQL driver, the disk, the random source, the
    external converter) takes the outcome of that call as an argument. *)

From Stdlib Require Import ZArith Ascii Sorting.Sorted Sorting.Permutation.
From stdpp Require Import base option list strings gmap.

Local Open Scope Z_scope.

(** ** Go preliminaries *)

(** A Go [error] value: [None] is [nil]. *)
Definition error := option string.

(** [fmt.Errorf("<prefix>: %w", err)] *)
Definition Errorf (pre e : string) : string := pre +:+ ": " +:+ e.

Module strings_pkg.

(** One byte of the ASCII loop of [strings.ToLower]:
    [if 'A' <= c && c <= 'Z' { c += 'a' - 'A' }]. *)
Definition lower_ascii (c : ascii) : ascii :=
  let n := N_of_ascii c in
  if ((65 <=? n) && (n <=? 90))%N then ascii_of_N (n + 32) else c.

(** The first loop of [strings.ToLower]: no byte of the string is
    [>= utf8.RuneSelf]. *)
Fixpoint isASCII (s : string) : bool :=
  match s with
  | EmptyString => true
  | String c s' => (N_of_ascii c <? 128)%N && isASCII s'
  end.

(** The second loop, for a string of ASCII bytes. *)
Fixpoint lower_bytes (s : string) : string :=
  match s with
  | EmptyString => EmptyString
  | String c s' => String (lower_ascii c) (lower_bytes s')
  end.

(** [strings.ToLower].  A string of ASCII bytes is folded byte by byte.
    Any other string goes through [strings.Map(unicode.ToLower, s)],
    which decodes UTF-8 and looks every rune up in the Unicode tables of
    the Go release the server is built with (they fold the Kelvin sign
    U+212A to k, for one).  Those tables are no part of this repository:
    [unicode_map] stands for that call, and nothing is assumed of it. *)
Definition ToLower (unicode_map : string → string) (s : string) : string :=
  if isASCII s then lower_bytes s else unicode_map s.

Fixpoint trim_left (s : string) : string :=
  match s with
  | EmptyString => EmptyString
  | String c s' => if Ascii.is_space c then trim_left s' else s
  end.

(** [strings.TrimSpace], for the ASCII white space. *)
Definition TrimSpace (s : string) : string :=
  String.rev (trim_left (String.rev (trim_left s))).

End strings_pkg.

Module filepath.

(** The loop of [filepath.Ext], walking the path from its last byte:
    [for i := len(path)-1; i >= 0 && !IsPathSeparator(path[i]); i--]
    [{ if path[i] is a dot { return path[i:] } }; return the empty string].
    [seen] is [path[i+1:]]. *)
Fixpoint ext_loop (rev_path : list ascii) (seen : string) : string :=
  match rev_path with
  | [] => EmptyString
  | c :: rest =>
      if Ascii.eqb c "/" then EmptyString
      else if Ascii.eqb c "." then String c seen
      else ext_loop rest (String c seen)
  end.

Definition Ext (path : string) : string :=
  ext_loop (reverse (String.list_ascii_of_string path)) EmptyString.

(** The elements of a path: what stands between its separators.
    [elements_from] gives the first element and the ones after it. *)
Fixpoint elements_from (path : string) : string * list string :=
  match path with
  | EmptyString => (EmptyString, [])
  | String c rest =>
      let '(e, es) := elements_from rest in
      if Ascii.eqb c "/" then (EmptyString, e :: es) else (String c e, es)
  end.

Definition elements (path : string) : list string :=
  let '(e, es) := elements_from path in e :: es.

(** The elements in [out], the last one first, written with separators
    between them. *)
Fixpoint join_sep (l : list string) : string :=
  match l with
  | [] => EmptyString
  | [e] => e
  | e :: l' => e +:+ "/" +:+ join_sep l'
  end.

(** One turn of the loop of [filepath.Clean], on the element [e]; [out]
    holds the elements written so far, the last one first.  An empty
    element and a [.] element are dropped.  A [..] element takes the last
    element written away when there is one that is not itself [..]
    ([out.w > dotdot]); else it is dropped on a rooted path and written
    on another.  Any other element is written. *)
Definition clean_element (rooted : bool) (out : list string) (e : string)
    : list string :=
  if decide (e = EmptyString ∨ e = ".") then out
  else if decide (e = "..") then
    match out with
    | top :: below =>
        if decide (top = "..") then (if rooted then out else e :: out)
        else below
    | [] => if rooted then out else e :: out
    end
  else e :: out.

Definition rooted (path : string) : bool :=
  match path with
  | String c _ => Ascii.eqb c "/"
  | EmptyString => false
  end.

(** [filepath.Clean], where the separator is the slash and there are no
    volume names: separators that follow one another count as one, [.]
    elements go, an inner [..] element goes together with the element
    before it, [..] elements at the root go; the result ends in a
    separator only when it is the root, and the empty result is [.]. *)
Definition Clean (path : string) : string :=
  let out := foldl (clean_element (rooted path)) [] (elements path) in
  let body := join_sep (reverse out) in
  if rooted path then "/" +:+ body
  else if decide (body = EmptyString) then "." else body.

(** A name with no separator in it. *)
Fixpoint one_element (name : string) : bool :=
  match name with
  | EmptyString => true
  | String c rest => negb (Ascii.eqb c "/") && one_element rest
  end.

(** [filepath.Join(dir, name)]: the elements from the first one that is
    not empty on, with separators between them, cleaned; the empty
    string when both are empty. *)
Definition Join (dir name : string) : string :=
  if decide (dir = EmptyString) then
    if decide (name = EmptyString) then EmptyString else Clean name
  else Clean (dir +:+ "/" +:+ name).

End filepath.

(** ** Package [storage] *)

Module storage.

Record Video := mkVideo {
  ID : string;
  ConversationID : string;
  Uploader : string;
  Filename : string;
  Status : string;          (* "pending", "ready", "error" *)
  UploadedAt : Z            (* seconds, [CURRENT_TIMESTAMP] at insertion *)
}.

Record Conversation := mkConversation {
  conv_ID : string;
  conv_InviteCode : string;
  conv_Name : string;
  conv_CreatedAt : Z
}.

(** A row of table [members]. *)
Record Member := mkMember {
  member_conversation_id : string;
  member_username : string;
  member_joined_at : Z
}.

(** The three tables created by [migrate]. *)
Record DB := mkDB {
  conversations : list Conversation;
  members : list Member;
  videos : list Video
}.

Definition empty : DB := mkDB [] [] [].

Global Instance Video_eq_dec : EqDecision Video.
Proof. solve_decision. Defined.
Global Instance Conversation_eq_dec : EqDecision Conversation.
Proof. solve_decision. Defined.
Global Instance Member_eq_dec : EqDecision Member.
Proof. solve_decision. Defined.
Global Instance DB_eq_dec : EqDecision DB.
Proof. solve_decision. Defined.

Definition with_videos (vs : list Video) (db : DB) : DB :=
  mkDB (conversations db) (members db) vs.
Definition with_members (ms : list Member) (db : DB) : DB :=
  mkDB (conversations db) ms (videos db).
Definition with_conversations (cs : list Conversation) (db : DB) : DB :=
  mkDB cs (members db) (videos db).

Definition set_status (status : string) (v : Video) : Video :=
  mkVideo (ID v) (ConversationID v) (Uploader v) (Filename v) status
          (UploadedAt v).

(** Every function below takes [drv], the error the SQL driver returned
    for a reason outside the statement itself (closed or broken
    database); [None] when the engine executed the statement. *)

(** [INSERT INTO videos (id, conversation_id, uploader, filename, status)
    VALUES (?, ?, ?, ?, 'pending')]: [id] is the primary key;
    [uploaded_at] takes its default, the current time [now].  (SQLite
    does not enforce the foreign key unless asked to, and [New] does not
    ask.) *)
Definition CreateVideo (drv : error) (now : Z)
    (id conversationID uploader filename : string) (db : DB) : error * DB :=
  match drv with
  | Some e => (Some (Errorf "create video" e), db)
  | None =>
      if decide (id ∈ ID <$> videos db)
      then (Some (Errorf "create video"
                    "UNIQUE constraint failed: videos.id"), db)
      else (None,
            with_videos
              (videos db ++
                 [mkVideo id conversationID uploader filename "pending" now])
              db)
  end.

(** [UPDATE videos SET status = ? WHERE id = ?].  The result of [Exec]
    is dropped: the number of rows changed is not looked at. *)
Definition UpdateVideoStatus (drv : error) (id status : string) (db : DB)
    : error * DB :=
  match drv with
  | Some e => (Some (Errorf "update video status" e), db)
  | None =>
      (None,
       with_videos
         ((λ v, if decide (ID v = id) then set_status status v else v)
            <$> videos db)
         db)
  end.

(** [ORDER BY uploaded_at DESC]: insertion into a list that is already in
    descending order. *)
Fixpoint insert_desc (v : Video) (l : list Video) : list Video :=
  match l with
  | [] => [v]
  | x :: l' =>
      if UploadedAt x <=? UploadedAt v then v :: l
      else x :: insert_desc v l'
  end.

Definition order_by_uploaded_at_desc (l : list Video) : list Video :=
  foldr insert_desc [] l.

(** [SELECT ... FROM videos WHERE conversation_id = ?
    ORDER BY uploaded_at DESC], every row scanned into a [Video]. *)
Definition GetVideosByConversation (drv : error) (conversationID : string)
    (db : DB) : list Video * error :=
  match drv with
  | Some e => ([], Some (Errorf "get videos by conversation" e))
  | None =>
      (order_by_uploaded_at_desc
         (filter (λ v, ConversationID v = conversationID) (videos db)),
       None)
  end.

(** [INSERT INTO conversations (id, invite_code, name) VALUES (?, ?, ?)]:
    [id] is the primary key and [invite_code] is [UNIQUE]. *)
Definition CreateConversation (drv : error) (now : Z)
    (id inviteCode name : string) (db : DB) : error * DB :=
  match drv with
  | Some e => (Some (Errorf "create conversation" e), db)
  | None =>
      if decide (id ∈ conv_ID <$> conversations db)
      then (Some (Errorf "create conversation"
                    "UNIQUE constraint failed: conversations.id"), db)
      else if decide (inviteCode ∈ conv_InviteCode <$> conversations db)
      then (Some (Errorf "create conversation"
                    "UNIQUE constraint failed: conversations.invite_code"),
            db)
      else (None,
            with_conversations
              (conversations db ++ [mkConversation id inviteCode name now])
              db)
  end.

(** [SELECT ... FROM conversations WHERE invite_code = ?], one row or
    [sql.ErrNoRows], which becomes [(nil, nil)]. *)
Definition GetConversationByInviteCode (drv : error) (inviteCode : string)
    (db : DB) : option Conversation * error :=
  match drv with
  | Some e => (None, Some (Errorf "get conversation by invite code" e))
  | None =>
      (head (filter (λ c, conv_InviteCode c = inviteCode)
               (conversations db)),
       None)
  end.

Fixpoint insert_conv_desc (c : Conversation) (l : list Conversation)
    : list Conversation :=
  match l with
  | [] => [c]
  | x :: l' =>
      if conv_CreatedAt x <=? conv_CreatedAt c then c :: l
      else x :: insert_conv_desc c l'
  end.

(** [SELECT c.* FROM conversations c JOIN members m
    ON c.id = m.conversation_id WHERE m.username = ?
    ORDER BY c.created_at DESC]. *)
Definition GetConversationsByUsername (drv : error) (username : string)
    (db : DB) : list Conversation * error :=
  match drv with
  | Some e => ([], Some (Errorf "get conversations by username" e))
  | None =>
      (foldr insert_conv_desc []
         (c ← conversations db;
          m ← filter (λ m, member_username m = username) (members db);
          if decide (conv_ID c = member_conversation_id m) then [c] else []),
       None)
  end.

Definition is_member_row (conversationID username : string) (m : Member)
    : Prop :=
  member_conversation_id m = conversationID ∧ member_username m = username.

Global Instance is_member_row_dec c u m : Decision (is_member_row c u m).
Proof. unfold is_member_row. apply _. Defined.

(** [SELECT COUNT FROM members WHERE conversation_id = ? AND
    username = ?]; the answer is [count > 0]. *)
Definition IsMember (drv : error) (conversationID username : string)
    (db : DB) : bool * error :=
  match drv with
  | Some e => (false, Some (Errorf "check membership" e))
  | None =>
      (bool_decide
         (0 < Z.of_nat (length (filter (is_member_row conversationID username)
                                  (members db)))),
       None)
  end.

(** [INSERT OR IGNORE INTO members (conversation_id, username)
    VALUES (?, ?)]: the primary key is the pair; a row that would break
    it is skipped without an error. *)
Definition AddMember (drv : error) (now : Z)
    (conversationID username : string) (db : DB) : error * DB :=
  match drv with
  | Some e => (Some (Errorf "add member" e), db)
  | None =>
      if decide (Exists (is_member_row conversationID username) (members db))
      then (None, db)
      else (None,
            with_members
              (members db ++ [mkMember conversationID username now]) db)
  end.

(** [username] has a row in [members] for [conversationID]. *)
Definition member_of (conversationID username : string) (db : DB) : Prop :=
  Exists (is_member_row conversationID username) (members db).

(** Newest first: the order [ORDER BY uploaded_at DESC] asks for. *)
Definition newest_first (a b : Video) : Prop := UploadedAt b ≤ UploadedAt a.

(** The status stored for [id], if a row has it. *)
Definition status_of (id : string) (db : DB) : option string :=
  Status <$> head (filter (λ v, ID v = id) (videos db)).

End storage.

(** ** Random identifiers *)

Module rand.

(** What [crypto/rand.Read] does to a buffer: it fails, or it fills every
    position of the buffer. *)
Inductive Source :=
  | Broken (e : string)
  | Bytes (f : nat → Byte.byte).

Definition hex_digit (n : N) : ascii :=
  if (n <? 10)%N then ascii_of_N (48 + n) else ascii_of_N (87 + n).

(** [hex.EncodeToString] *)
Fixpoint EncodeToString (b : list Byte.byte) : string :=
  match b with
  | [] => EmptyString
  | x :: b' =>
      let n := Byte.to_N x in
      String (hex_digit (n / 16)) (String (hex_digit (n mod 16))
                                     (EncodeToString b'))
  end.

(** [b := make([]byte, n); rand.Read(b); hex.EncodeToString(b)] with the
    error of [Read] wrapped under [pre]. *)
Definition generateHex (pre : string) (src : Source) (n : nat)
    : string * error :=
  match src with
  | Broken e => (EmptyString, Some (Errorf pre e))
  | Bytes f => (EncodeToString (f <$> seq 0 n), None)
  end.

End rand.

(** ** Package [auth] *)

Module auth.

Definition sessionCookieName : string := "waffle_session".

Record Session := mkSession { Username : string }.

Record sessionEntry := mkEntry { username : string; createdAt : Z }.

(** [Store.sessions]; the mutex guards single map operations, which are
    atomic here. *)
Definition Store := gmap string sessionEntry.

Definition NewStore : Store := ∅.

(** [generateToken]: 32 random bytes in hexadecimal; the error is
    returned as it is. *)
Definition generateToken (src : rand.Source) : string * error :=
  match src with
  | rand.Broken e => (EmptyString, Some e)
  | rand.Bytes f => (rand.EncodeToString (f <$> seq 0 32), None)
  end.

Definition Create (src : rand.Source) (now : Z) (username : string)
    (s : Store) : (string * error) * Store :=
  match generateToken src with
  | (_, Some e) => ((EmptyString, Some (Errorf "generate session token" e)), s)
  | (token, None) => ((token, None), <[token := mkEntry username now]> s)
  end.

Definition Get (token : string) (s : Store) : option Session :=
  (λ entry, mkSession (username entry)) <$> s !! token.

(** [r.Cookie(name)]: the first cookie of that name, if any. *)
Definition Cookie (name : string) (cookies : list (string * string))
    : option string :=
  snd <$> head (filter (λ c, c.1 = name) cookies).

Definition FromRequest (cookies : list (string * string)) : option string :=
  match Cookie sessionCookieName cookies with
  | None => None
  | Some value =>
      let token := strings_pkg.TrimSpace value in
      if decide (token = EmptyString) then None else Some token
  end.

End auth.

(** ** The filesystem *)

Module os.

Record FS := mkFS {
  files : gmap string (list Byte.byte);
  dirs : gset string
}.

Definition empty : FS := mkFS ∅ ∅.

(** [os.MkdirAll(path, 0755)]: nothing to do when the directory is there. *)
Definition MkdirAll (err : error) (path : string) (fs : FS) : error * FS :=
  match err with
  | Some e => (Some e, fs)
  | None => (None, mkFS (files fs) ({[path]} ∪ dirs fs))
  end.

(** [os.Create(path)]: the file is created, or truncated when it exists. *)
Definition Create (err : error) (path : string) (fs : FS) : error * FS :=
  match err with
  | Some e => (Some e, fs)
  | None => (None, mkFS (<[path := []]> (files fs)) (dirs fs))
  end.

(** [io.Copy(f, src)] into the open file at [path].  [fault] is
    [Some (n, e)] when the copy stops with error [e] after [n] bytes
    reached the file. *)
Definition Copy (fault : option (nat * string)) (path : string)
    (src : list Byte.byte) (fs : FS) : error * FS :=
  match fault with
  | Some (n, e) => (Some e, mkFS (<[path := take n src]> (files fs)) (dirs fs))
  | None => (None, mkFS (<[path := src]> (files fs)) (dirs fs))
  end.

(** [os.Remove(path)]: fails when there is no such file, or for a reason
    of the system's own ([err]). *)
Definition Remove (err : error) (path : string) (fs : FS) : error * FS :=
  match files fs !! path with
  | None => (Some "no such file or directory", fs)
  | Some _ =>
      match err with
      | Some e => (Some e, fs)
      | None => (None, mkFS (delete path (files fs)) (dirs fs))
      end
  end.

End os.

(** ** HTTP *)

Module http.

Definition StatusOK : Z := 200.
Definition StatusCreated : Z := 201.
Definition StatusAccepted : Z := 202.
Definition StatusBadRequest : Z := 400.
Definition StatusUnauthorized : Z := 401.
Definition StatusForbidden : Z := 403.
Definition StatusInternalServerError : Z := 500.

(** One element of the list [videos.List] answers with. *)
Record VideoItem := mkVideoItem {
  item_id : string;
  item_uploader : string;
  item_status : string;
  item_uploaded_at : Z          (* written out in RFC 3339 on the wire *)
}.

Record ConversationItem := mkConversationItem {
  citem_id : string;
  citem_invite_code : string;
  citem_name : string
}.

Inductive Body :=
  | Text (msg : string)                          (* [http.Error] *)
  | Object (fields : list (string * string))     (* a [map[string]string] *)
  | VideoList (items : list VideoItem)
  | ConversationList (items : list ConversationItem).

Record Response := mkResponse {
  code : Z;
  body : Body;
  set_cookie : option string      (* [auth.SetCookie] *)
}.

(** [http.Error(w, msg, code)] *)
Definition Error (msg : string) (c : Z) : Response :=
  mkResponse c (Text msg) None.

(** A client error is a status in the 4xx range. *)
Definition client_error (r : Response) : Prop := 400 ≤ code r < 500.

End http.

(** The state the handlers share: the disk, the database and the session
    store. *)
Record World := mkWorld {
  fs : os.FS;
  db : storage.DB;
  sessions : auth.Store
}.

Definition with_fs (f : os.FS) (w : World) : World :=
  mkWorld f (db w) (sessions w).
Definition with_db (d : storage.DB) (w : World) : World :=
  mkWorld (fs w) d (sessions w).
Definition with_sessions (s : auth.Store) (w : World) : World :=
  mkWorld (fs w) (db w) s.

(** The session a request's cookies stand for, if any. *)
Definition authenticated (cookies : list (string * string)) (w : World)
    : option auth.Session :=
  token ← auth.FromRequest cookies; auth.Get token (sessions w).

(** [requireSession], the same in both handler packages: the session, or
    the answer already written. *)
Definition requireSession (cookies : list (string * string)) (w : World)
    : http.Response + auth.Session :=
  match auth.FromRequest cookies with
  | None => inl (http.Error "unauthorized" http.StatusUnauthorized)
  | Some token =>
      match auth.Get token (sessions w) with
      | None => inl (http.Error "unauthorized" http.StatusUnauthorized)
      | Some session => inr session
      end
  end.

(** ** Package [videos] *)

Module videos.

Definition maxUploadSize : Z := 500 * 2 ^ 20.
Definition maxRetries : nat := 3.
(** [2 * time.Second], in nanoseconds. *)
Definition retryDelay : Z := 2 * 1000000000.

Definition allowedExtensions (ext : string) : bool :=
  bool_decide (ext ∈ [".mp4"; ".mov"; ".avi"; ".mkv"]).

Record Handler := mkHandler { VideosDir : string }.

(** The parsed multipart form: [FormValue] gives the empty string for a
    field that is absent; [FormFile] fails when there is no file part. *)
Record Form := mkForm {
  conversation_id : string;
  file : option (string * list Byte.byte)      (* file name, content *)
}.

Record UploadRequest := mkUploadRequest {
  up_cookies : list (string * string);
  up_body_size : Z;
  up_form : option Form        (* [None]: the body is not a multipart form *)
}.

(** [http.MaxBytesReader] followed by [ParseMultipartForm]. *)
Definition ParseMultipartForm (r : UploadRequest) : option Form :=
  if maxUploadSize <? up_body_size r then None else up_form r.

(** What the world outside decides during one call of [Upload]. *)
Record UploadEnv := mkUploadEnv {
  ismember_drv : error;
  id_source : rand.Source;
  mkdir_err : error;
  create_err : error;
  copy_fault : option (nat * string);
  now : Z;
  createvideo_drv : error;
  remove_err : error;
  (* [strings.Map(unicode.ToLower, s)] for a string that is not all
     ASCII: the Unicode tables of the Go release *)
  unicode_lower : string → string
}.

(** The arguments of one [go h.transcode(...)]. *)
Record Task := mkTask {
  task_videoID : string;
  task_inputPath : string;
  task_outputPath : string
}.

Global Instance Task_eq_dec : EqDecision Task.
Proof. solve_decision. Defined.

Definition generateID (src : rand.Source) : string * error :=
  rand.generateHex "generate id" src 16.

Definition saveFile (create_err : error) (copy_fault : option (nat * string))
    (src : list Byte.byte) (destPath : string) (fs : os.FS)
    : error * os.FS :=
  match os.Create create_err destPath fs with
  | (Some e, fs1) => (Some (Errorf "create file" e), fs1)
  | (None, fs1) =>
      match os.Copy copy_fault destPath src fs1 with
      | (Some e, fs2) => (Some (Errorf "write file" e), fs2)
      | (None, fs2) => (None, fs2)
      end
  end.

Definition internal_error : http.Response :=
  http.Error "internal error" http.StatusInternalServerError.

Definition originalPath (convDir videoID ext : string) : string :=
  filepath.Join convDir ("original_" +:+ videoID +:+ ext).
Definition outputPath (convDir videoID : string) : string :=
  filepath.Join convDir (videoID +:+ ".mp4").

(** [POST /api/upload].  The result is the answer, the world when the
    handler returns, and the worker it started, if any. *)
Definition Upload (h : Handler) (env : UploadEnv) (r : UploadRequest)
    (w : World) : http.Response * World * option Task :=
  match requireSession (up_cookies r) w with
  | inl resp => (resp, w, None)
  | inr session =>
  match ParseMultipartForm r with
  | None =>
      (http.Error "request too large or malformed" http.StatusBadRequest,
       w, None)
  | Some form =>
  let conversationID := conversation_id form in
  if decide (conversationID = EmptyString) then
    (http.Error "'conversation_id' is required" http.StatusBadRequest,
     w, None)
  else
  match storage.IsMember (ismember_drv env) conversationID
          (auth.Username session) (db w) with
  | (_, Some _) => (internal_error, w, None)
  | (false, None) => (http.Error "forbidden" http.StatusForbidden, w, None)
  | (true, None) =>
  match file form with
  | None => (http.Error "file is required" http.StatusBadRequest, w, None)
  | Some (header_Filename, content) =>
  let ext :=
    strings_pkg.ToLower (unicode_lower env) (filepath.Ext header_Filename) in
  if negb (allowedExtensions ext) then
    (http.Error ("unsupported file type: " +:+ ext) http.StatusBadRequest,
     w, None)
  else
  match generateID (id_source env) with
  | (_, Some _) => (internal_error, w, None)
  | (videoID, None) =>
  let convDir := filepath.Join (VideosDir h) conversationID in
  match os.MkdirAll (mkdir_err env) convDir (fs w) with
  | (Some _, fs1) => (internal_error, with_fs fs1 w, None)
  | (None, fs1) =>
  let originalPath := originalPath convDir videoID ext in
  let outputPath := outputPath convDir videoID in
  match saveFile (create_err env) (copy_fault env) content originalPath fs1
  with
  | (Some _, fs2) => (internal_error, with_fs fs2 w, None)
  | (None, fs2) =>
  match storage.CreateVideo (createvideo_drv env) (now env) videoID
          conversationID (auth.Username session) outputPath (db w) with
  | (Some _, db1) =>
      (internal_error,
       with_db db1 (with_fs (os.Remove (remove_err env) originalPath fs2).2 w),
       None)
  | (None, db1) =>
      (http.mkResponse http.StatusAccepted
         (http.Object [("status", "pending"); ("video_id", videoID)]) None,
       with_db db1 (with_fs fs2 w),
       Some (mkTask videoID originalPath outputPath))
  end end end end end end end end.

Record ListRequest := mkListRequest {
  ls_cookies : list (string * string);
  ls_conversation_id : string      (* the query parameter, empty if absent *)
}.

Record ListEnv := mkListEnv {
  ls_ismember_drv : error;
  ls_query_drv : error
}.

Definition to_item (v : storage.Video) : http.VideoItem :=
  http.mkVideoItem (storage.ID v) (storage.Uploader v) (storage.Status v)
                   (storage.UploadedAt v).

(** [GET /api/videos?conversation_id=...] *)
Definition List (h : Handler) (env : ListEnv) (r : ListRequest) (w : World)
    : http.Response * World :=
  match requireSession (ls_cookies r) w with
  | inl resp => (resp, w)
  | inr session =>
  let conversationID := ls_conversation_id r in
  if decide (conversationID = EmptyString) then
    (http.Error "'conversation_id' is required" http.StatusBadRequest, w)
  else
  match storage.IsMember (ls_ismember_drv env) conversationID
          (auth.Username session) (db w) with
  | (_, Some _) => (internal_error, w)
  | (false, None) => (http.Error "forbidden" http.StatusForbidden, w)
  | (true, None) =>
  match storage.GetVideosByConversation (ls_query_drv env) conversationID
          (db w) with
  | (_, Some _) => (internal_error, w)
  | (videos, None) =>
      (http.mkResponse http.StatusOK (http.VideoList (to_item <$> videos))
         None, w)
  end end end.

(** One run of the external converter
    [ffmpeg -i input -vf scale=-2:720 -c:v libx264 -c:a aac -y output]:
    it exits with success after writing the output file, or it fails,
    possibly leaving part of an output file behind. *)
Inductive FfmpegOutcome :=
  | FfmpegOk (out : list Byte.byte)
  | FfmpegFail (partial : option (list Byte.byte)) (diagnostic : string).

Definition ffmpeg_succeeds (o : FfmpegOutcome) : bool :=
  match o with FfmpegOk _ => true | FfmpegFail _ _ => false end.

Definition run_ffmpeg (o : FfmpegOutcome) (output : string) (f : os.FS)
    : os.FS :=
  match o with
  | FfmpegOk out => os.mkFS (<[output := out]> (os.files f)) (os.dirs f)
  | FfmpegFail (Some part) _ =>
      os.mkFS (<[output := part]> (os.files f)) (os.dirs f)
  | FfmpegFail None _ => f
  end.

(** What the world outside decides during one run of [transcode]:
    the outcome of the converter at each attempt (counted from 1), of the
    removal of the original, and of the status update. *)
Record TranscodeEnv := mkTranscodeEnv {
  ffmpeg : nat → FfmpegOutcome;
  t_remove_err : error;
  t_update_drv : error
}.

(** The calls a worker makes, in the order it makes them. *)
Inductive Event :=
  | EvConvert (attempt : nat) (input output : string) (ok : bool)
  | EvSleep (delay : Z)
  | EvRemove (path : string) (err : error)
  | EvUpdateStatus (videoID status : string) (err : error).

Global Instance Event_eq_dec : EqDecision Event.
Proof. solve_decision. Defined.

(** The loop [for attempt := 1; attempt <= maxRetries; attempt++] of
    [transcode] and what follows it; [remaining] is
    [maxRetries + 1 - attempt], the number of iterations left. *)
Fixpoint transcode_from (env : TranscodeEnv)
    (videoID inputPath outputPath : string)
    (remaining attempt : nat) (w : World) : World * list Event :=
  match remaining with
  | O =>
      let '(err, db1) :=
        storage.UpdateVideoStatus (t_update_drv env) videoID "error" (db w) in
      (with_db db1 w, [EvUpdateStatus videoID "error" err])
  | S remaining' =>
      let o := ffmpeg env attempt in
      let w1 := with_fs (run_ffmpeg o outputPath (fs w)) w in
      let ev := EvConvert attempt inputPath outputPath (ffmpeg_succeeds o) in
      if ffmpeg_succeeds o then
        let '(rerr, fs2) := os.Remove (t_remove_err env) inputPath (fs w1) in
        let '(uerr, db2) :=
          storage.UpdateVideoStatus (t_update_drv env) videoID "ready"
            (db w1) in
        (with_db db2 (with_fs fs2 w1),
         [ev; EvRemove inputPath rerr; EvUpdateStatus videoID "ready" uerr])
      else
        let '(w2, evs) :=
          transcode_from env videoID inputPath outputPath remaining'
            (S attempt) w1 in
        (w2,
         ev :: (if bool_decide (attempt < maxRetries)%nat
                then [EvSleep retryDelay] else []) ++ evs)
  end.

Definition transcode (env : TranscodeEnv)
    (videoID inputPath outputPath : string) (w : World)
    : World * list Event :=
  transcode_from env videoID inputPath outputPath maxRetries 1%nat w.

Definition is_convert (e : Event) : bool :=
  match e with EvConvert _ _ _ _ => true | _ => false end.

(** The calls of the attempts [1 .. n] when each of them fails and
    another attempt follows. *)
Definition failed_attempts (inputPath outputPath : string) (n : nat)
    : list Event :=
  flat_map (λ j, [EvConvert j inputPath outputPath false;
                  EvSleep retryDelay]) (seq 1 n).

(** The calls of one failing attempt: the conversion, then the wait
    unless it was the last attempt allowed. *)
Definition failed_attempt (inputPath outputPath : string) (attempt : nat)
    : list Event :=
  EvConvert attempt inputPath outputPath false ::
    (if bool_decide (attempt < maxRetries)%nat then [EvSleep retryDelay]
     else []).

(** [w1] is [w] except, possibly, for the file at [path]. *)
Definition same_but (path : string) (w w1 : World) : Prop :=
  db w1 = db w ∧ sessions w1 = sessions w
  ∧ os.dirs (fs w1) = os.dirs (fs w)
  ∧ ∀ p, p ≠ path → os.files (fs w1) !! p = os.files (fs w) !! p.

Definition run_task (env : TranscodeEnv) (t : Task) (w : World)
    : World * list Event :=
  transcode env (task_videoID t) (task_inputPath t) (task_outputPath t) w.

(** A worker on its way through the loop: its arguments and the number of
    the attempt it makes next. *)
Record Worker := mkWorker {
  worker_task : Task;
  worker_attempt : nat
}.

Global Instance Worker_eq_dec : EqDecision Worker.
Proof. solve_decision. Defined.

Definition worker_id (k : Worker) : string := task_videoID (worker_task k).

(** One turn of the loop of [transcode], so that requests and other
    workers can run between two attempts of one worker: the test
    [attempt <= maxRetries], then either the body of the loop, which ends
    the worker on success and otherwise leaves it at the next attempt, or
    the code after the loop.  The result is the world and the worker, if
    it goes on. *)
Definition worker_step (env : TranscodeEnv) (k : Worker) (w : World)
    : World * option Worker :=
  let t := worker_task k in
  let attempt := worker_attempt k in
  if bool_decide (attempt ≤ maxRetries)%nat then
    let o := ffmpeg env attempt in
    let w1 := with_fs (run_ffmpeg o (task_outputPath t) (fs w)) w in
    if ffmpeg_succeeds o then
      let '(rerr, fs2) :=
        os.Remove (t_remove_err env) (task_inputPath t) (fs w1) in
      let '(uerr, db2) :=
        storage.UpdateVideoStatus (t_update_drv env) (task_videoID t) "ready"
          (db w1) in
      (with_db db2 (with_fs fs2 w1), None)
    else (w1, Some (mkWorker t (S attempt)))
  else
    let '(err, db1) :=
      storage.UpdateVideoStatus (t_update_drv env) (task_videoID t) "error"
        (db w) in
    (with_db db1 w, None).

(** The turns of one worker taken one after the other, at most [turns] of
    them. *)
Fixpoint worker_run (env : TranscodeEnv) (turns : nat) (k : Worker)
    (w : World) : World :=
  match turns with
  | O => w
  | S turns' =>
      match worker_step env k w with
      | (w', Some k') => worker_run env turns' k' w'
      | (w', None) => w'
      end
  end.

End videos.

(** ** Package [conversations] *)

Module conversations.

Record CreateRequest := mkCreateRequest {
  cr_cookies : list (string * string);
  cr_name : option string      (* [None]: the body does not decode *)
}.

Record CreateEnv := mkCreateEnv {
  cr_id_source : rand.Source;
  cr_code_source : rand.Source;
  cr_create_drv : error;
  cr_addmember_drv : error;
  cr_now : Z
}.

Definition generateID (src : rand.Source) : string * error :=
  rand.generateHex "generate hex" src 16.
Definition generateInviteCode (src : rand.Source) : string * error :=
  rand.generateHex "generate hex" src 6.

Definition internal_error : http.Response :=
  http.Error "internal error" http.StatusInternalServerError.

(** [POST /api/conversations] *)
Definition Create (env : CreateEnv) (r : CreateRequest) (w : World)
    : http.Response * World :=
  match requireSession (cr_cookies r) w with
  | inl resp => (resp, w)
  | inr session =>
  match cr_name r with
  | None =>
      (http.Error "invalid body: 'name' is required" http.StatusBadRequest, w)
  | Some name =>
  if decide (name = EmptyString) then
    (http.Error "invalid body: 'name' is required" http.StatusBadRequest, w)
  else
  match generateID (cr_id_source env) with
  | (_, Some _) => (internal_error, w)
  | (id, None) =>
  match generateInviteCode (cr_code_source env) with
  | (_, Some _) => (internal_error, w)
  | (inviteCode, None) =>
  match storage.CreateConversation (cr_create_drv env) (cr_now env) id
          inviteCode name (db w) with
  | (Some _, db1) => (internal_error, with_db db1 w)
  | (None, db1) =>
  match storage.AddMember (cr_addmember_drv env) (cr_now env) id
          (auth.Username session) db1 with
  | (Some _, db2) => (internal_error, with_db db2 w)
  | (None, db2) =>
      (http.mkResponse http.StatusCreated
         (http.Object [("id", id); ("invite_code", inviteCode);
                       ("name", name)]) None,
       with_db db2 w)
  end end end end end end.

Record ListEnv := mkListEnv { ls_query_drv : error }.

Definition to_item (c : storage.Conversation) : http.ConversationItem :=
  http.mkConversationItem (storage.conv_ID c) (storage.conv_InviteCode c)
                          (storage.conv_Name c).

(** [GET /api/conversations] *)
Definition List (env : ListEnv) (cookies : list (string * string))
    (w : World) : http.Response * World :=
  match requireSession cookies w with
  | inl resp => (resp, w)
  | inr session =>
  match storage.GetConversationsByUsername (ls_query_drv env)
          (auth.Username session) (db w) with
  | (_, Some _) => (internal_error, w)
  | (cs, None) =>
      (http.mkResponse http.StatusOK
         (http.ConversationList (to_item <$> cs)) None, w)
  end end.

Record JoinRequest := mkJoinRequest {
  (* [None]: the body does not decode; else invite code and user name *)
  jn_body : option (string * string)
}.

Record JoinEnv := mkJoinEnv {
  jn_lookup_drv : error;
  jn_addmember_drv : error;
  jn_token_source : rand.Source;
  jn_now : Z
}.

Definition invalid_join_body : http.Response :=
  http.Error "invalid body: 'invite_code' and 'username' are required"
             http.StatusBadRequest.

(** [POST /api/conversations/join] *)
Definition Join (env : JoinEnv) (r : JoinRequest) (w : World)
    : http.Response * World :=
  match jn_body r with
  | None => (invalid_join_body, w)
  | Some (inviteCode, username) =>
  if decide (inviteCode = EmptyString ∨ username = EmptyString) then
    (invalid_join_body, w)
  else
  match storage.GetConversationByInviteCode (jn_lookup_drv env) inviteCode
          (db w) with
  | (_, Some _) => (internal_error, w)
  | (None, None) =>
      (http.Error "invalid invite code" http.StatusUnauthorized, w)
  | (Some conversation, None) =>
  match storage.AddMember (jn_addmember_drv env) (jn_now env)
          (storage.conv_ID conversation) username (db w) with
  | (Some _, db1) => (internal_error, with_db db1 w)
  | (None, db1) =>
  match auth.Create (jn_token_source env) (jn_now env) username
          (sessions w) with
  | ((_, Some _), s1) => (internal_error, with_sessions s1 (with_db db1 w))
  | ((token, None), s1) =>
      (http.mkResponse http.StatusOK
         (http.Object [("conversation_id", storage.conv_ID conversation);
                       ("username", username)]) (Some token),
       with_sessions s1 (with_db db1 w))
  end end end end.

End conversations.

(** ** The server

    The state of the running server is the world together with the workers
    that were started and have not ended.  A step of the server is one
    request served, or one turn of the loop of one worker: requests and
    workers interleave between the attempts of a worker. *)

Record System := mkSystem {
  world : World;
  workers : list videos.Worker
}.

(** [main] opens the database file it finds, with whatever rows it holds,
    and starts with no worker. *)
Definition boot (w0 : World) : System := mkSystem w0 [].

Inductive Action :=
  | ActJoin (env : conversations.JoinEnv) (r : conversations.JoinRequest)
  | ActCreate (env : conversations.CreateEnv) (r : conversations.CreateRequest)
  | ActListConversations (env : conversations.ListEnv)
      (cookies : list (string * string))
  | ActUpload (env : videos.UploadEnv) (r : videos.UploadRequest)
  | ActListVideos (env : videos.ListEnv) (r : videos.ListRequest)
  | ActWorker (i : nat) (env : videos.TranscodeEnv).

(** One request served by the routes of [main], or one turn of the [i]-th
    worker. *)
Definition step (h : videos.Handler) (a : Action) (s : System) : System :=
  match a with
  | ActJoin env r =>
      mkSystem (conversations.Join env r (world s)).2 (workers s)
  | ActCreate env r =>
      mkSystem (conversations.Create env r (world s)).2 (workers s)
  | ActListConversations env cookies =>
      mkSystem (conversations.List env cookies (world s)).2 (workers s)
  | ActUpload env r =>
      let '(_, w', started) := videos.Upload h env r (world s) in
      mkSystem w'
        (workers s ++ ((λ t, videos.mkWorker t 1) <$> option_list started))
  | ActListVideos env r =>
      mkSystem (videos.List h env r (world s)).2 (workers s)
  | ActWorker i env =>
      match workers s !! i with
      | None => s
      | Some k =>
          match videos.worker_step env k (world s) with
          | (w', Some k') => mkSystem w' (<[i := k']> (workers s))
          | (w', None) => mkSystem w' (delete i (workers s))
          end
      end
  end.

Definition run (h : videos.Handler) (acts : list Action) (s : System)
    : System :=
  foldl (λ s a, step h a s) s acts.

(** [s] is a state of a server that was started on the world [w0], whose
    table [videos] respects its primary key. *)
Definition reachable (h : videos.Handler) (w0 : World) (s : System) : Prop :=
  NoDup (storage.ID <$> storage.videos (db w0))
  ∧ ∃ acts, s = run h acts (boot w0).

(** The status moves allowed for one video between two states of the
    server: it stays, or it leaves "pending" for "ready" or "error"; a
    video that appears starts at "pending"; none disappears. *)
Definition status_move (before after : option string) : Prop :=
  match before, after with
  | None, None => True
  | None, Some s' => s' = "pending"
  | Some s, Some s' =>
      s' = s ∨ (s = "pending" ∧ (s' = "ready" ∨ s' = "error"))
  | Some _, None => False
  end.


(** ** A scenario: alice, a member of conversation conv-1, uploads a clip *)

Module scenario.
Import videos.

Definition handler : Handler := mkHandler "./videos".

Definition joined : World :=
  mkWorld os.empty
    (storage.mkDB [storage.mkConversation "conv-1" "invite-abc" "Test" 0]
       [storage.mkMember "conv-1" "alice" 1] [])
    {[ "tok-alice" := auth.mkEntry "alice" 1;
       "tok-bob" := auth.mkEntry "bob" 2 ]}.

Definition clip : list Byte.byte := [Byte.x00; Byte.x01; Byte.x02; Byte.x03].

Definition upload_of (token name : string) : UploadRequest :=
  mkUploadRequest [("waffle_session", token)] 20480
    (Some (mkForm "conv-1" (Some (name, clip)))).

(** The names of the scenario are in ASCII: the Unicode tables are not
    looked at, and any will do. *)
Definition unicode_tables : string → string := λ s, s.

Definition calm : UploadEnv :=
  mkUploadEnv None (rand.Bytes (λ _, Byte.xab)) None None None 5 None None
    unicode_tables.

(** The disk fills up after one byte of the upload is written. *)
Definition disk_full : UploadEnv :=
  mkUploadEnv None (rand.Bytes (λ _, Byte.xab)) None None
    (Some (1%nat, "no space left on device")) 5 None None unicode_tables.

(** The database refuses the insertion. *)
Definition db_locked : UploadEnv :=
  mkUploadEnv None (rand.Bytes (λ _, Byte.xab)) None None None 5
    (Some "database is locked") None unicode_tables.

(** Tables that fold the Kelvin sign (U+212A) to k, as those of Go do. *)
Definition kelvin_tables : string → string :=
  λ s, if decide (s = ".mKv") then ".mkv" else s.

Definition calm_kelvin : UploadEnv :=
  mkUploadEnv None (rand.Bytes (λ _, Byte.xab)) None None None 5 None None
    kelvin_tables.

(** The membership query fails. *)
Definition db_down : UploadEnv :=
  mkUploadEnv (Some "database is closed") (rand.Bytes (λ _, Byte.xab))
    None None None 5 None None unicode_tables.

Definition video_id : string := "abababababababababababababababab".
Definition original : string :=
  "videos/conv-1/original_abababababababababababababababab.mp4".
Definition canonical : string :=
  "videos/conv-1/abababababababababababababababab.mp4".

(** The world once alice's upload of clip.mp4 is accepted. *)
Definition uploaded : World :=
  (Upload handler calm (upload_of "tok-alice" "clip.mp4") joined).1.2.

Definition converted : list Byte.byte := [Byte.x10; Byte.x11].

Definition converter_works : TranscodeEnv :=
  mkTranscodeEnv (λ _, FfmpegOk converted) None None.

Definition converter_works_third_time : TranscodeEnv :=
  mkTranscodeEnv
    (λ attempt, if (attempt <? 3)%nat then FfmpegFail None "moov atom not found"
                else FfmpegOk converted)
    None None.

Definition converter_broken : TranscodeEnv :=
  mkTranscodeEnv (λ _, FfmpegFail (Some [Byte.x10]) "invalid data") None None.

(** The converter works, the removal of the original is refused. *)
Definition removal_refused : TranscodeEnv :=
  mkTranscodeEnv (λ _, FfmpegOk converted) (Some "permission denied") None.

(** The world after a worker run in which the removal was refused. *)
Definition original_kept : World :=
  (transcode removal_refused video_id original canonical uploaded).1.

(** The server once alice's upload is accepted: one worker waits. *)
Definition server_uploaded : System :=
  run handler [ActUpload calm (upload_of "tok-alice" "clip.mp4")]
    (boot joined).

End scenario.

(** ** What holds of the server in every state it can reach *)

Definition status_in (id : string) (s : System) : option string :=
  storage.status_of id (db (world s)).

(** The status of one video at two states of the server, the second any
    number of steps after the first. *)
Definition status_later (before after : option string) : Prop :=
  match before, after with
  | None, None => True
  | None, Some s' => s' = "pending" ∨ s' = "ready" ∨ s' = "error"
  | Some s, Some s' =>
      s' = s ∨ (s = "pending" ∧ (s' = "ready" ∨ s' = "error"))
  | Some _, None => False
  end.

(** Ids are unique in table [videos]; a running worker is the only one for
    its video, and that video is "pending". *)
Definition workers_pending (s : System) : Prop :=
  NoDup (storage.ID <$> storage.videos (db (world s)))
  ∧ NoDup (videos.worker_id <$> workers s)
  ∧ ∀ k, k ∈ workers s → status_in (videos.worker_id k) s = Some "pending".

(** What one step does to table [videos] and to the running workers:
    nothing; or an accepted upload adds a fresh "pending" row and the
    worker for it; or a worker fails an attempt and stays, at its next
    attempt; or a worker writes "ready" or "error" for its video and is
    gone. *)
Inductive step_kind (s s' : System) : Prop :=
  | quiet :
      storage.videos (db (world s')) = storage.videos (db (world s)) →
      workers s' = workers s →
      step_kind s s'
  | created (v : storage.Video) (k : videos.Worker) :
      storage.ID v ∉ (storage.ID <$> storage.videos (db (world s))) →
      storage.Status v = "pending" →
      videos.worker_id k = storage.ID v →
      storage.videos (db (world s')) =
        storage.videos (db (world s)) ++ [v] →
      workers s' = workers s ++ [k] →
      step_kind s s'
  | retried (i : nat) (k k' : videos.Worker) :
      workers s !! i = Some k →
      videos.worker_id k' = videos.worker_id k →
      db (world s') = db (world s) →
      workers s' = <[i := k']> (workers s) →
      step_kind s s'
  | finished (i : nat) (k : videos.Worker) (drv : error) (status : string) :
      workers s !! i = Some k →
      status = "ready" ∨ status = "error" →
      db (world s') =
        (storage.UpdateVideoStatus drv (videos.worker_id k) status
           (db (world s))).2 →
      workers s' = delete i (workers s) →
      step_kind s s'.

(** ** Words for the further properties *)

(** A lower-case hexadecimal digit. *)
Definition is_hex_digit (c : ascii) : bool :=
  let n := N_of_ascii c in
  (((48 <=? n) && (n <=? 57)) || ((97 <=? n) && (n <=? 102)))%N.

Fixpoint all_chars (P : ascii → bool) (s : string) : bool :=
  match s with
  | EmptyString => true
  | String c s' => P c && all_chars P s'
  end.

(** A character of ASCII. *)
Definition is_ascii_char (c : ascii) : bool := (N_of_ascii c <? 128)%N.

(** The value of a hexadecimal digit. *)
Definition hex_value (c : ascii) : N :=
  let n := N_of_ascii c in
  if (n <? 97)%N then (n - 48)%N else (n - 87)%N.

(** The key of a row of table [members]. *)
Definition member_key (m : storage.Member) : string * string :=
  (storage.member_conversation_id m, storage.member_username m).

(** What the schema of [migrate] asks of the tables: the primary keys and
    the [UNIQUE] column. *)
Definition schema_ok (db : storage.DB) : Prop :=
  NoDup (storage.ID <$> storage.videos db)
  ∧ NoDup (storage.conv_ID <$> storage.conversations db)
  ∧ NoDup (storage.conv_InviteCode <$> storage.conversations db)
  ∧ NoDup (member_key <$> storage.members db).

(** Two rows of [videos] that differ at most in their status. *)
Definition same_but_status (v v' : storage.Video) : Prop :=
  storage.ID v' = storage.ID v
  ∧ storage.ConversationID v' = storage.ConversationID v
  ∧ storage.Uploader v' = storage.Uploader v
  ∧ storage.Filename v' = storage.Filename v
  ∧ storage.UploadedAt v' = storage.UploadedAt v.

(** Newest first, for conversations. *)
Definition newest_conversation_first (a b : storage.Conversation) : Prop :=
  storage.conv_CreatedAt b ≤ storage.conv_CreatedAt a.

Definition is_update (e : videos.Event) : bool :=
  match e with videos.EvUpdateStatus _ _ _ => true | _ => false end.

Definition is_remove (e : videos.Event) : bool :=
  match e with videos.EvRemove _ _ => true | _ => false end.

(** How many of the calls of a worker are of one kind. *)
Definition calls (kind : videos.Event → bool) (evs : list videos.Event)
    : nat :=
  length (filter kind evs).

(** What the server can have done to the database between two of its
    states: nothing, or one more call of one of the four writing
    operations of package [storage]. *)
Inductive stored (db : storage.DB) : storage.DB → Prop :=
  | stored_nothing : stored db db
  | stored_CreateVideo db' drv now id c u f :
      stored db db' →
      stored db (storage.CreateVideo drv now id c u f db').2
  | stored_UpdateVideoStatus db' drv id status :
      stored db db' →
      stored db (storage.UpdateVideoStatus drv id status db').2
  | stored_CreateConversation db' drv now id code name :
      stored db db' →
      stored db (storage.CreateConversation drv now id code name db').2
  | stored_AddMember db' drv now c u :
      stored db db' →
      stored db (storage.AddMember drv now c u db').2.

(** The tables of [db'] hold the rows of [db] in their places, and
    perhaps more after them; of a video row the id is looked at. *)
Definition db_extends (db db' : storage.DB) : Prop :=
  storage.conversations db `prefix_of` storage.conversations db'
  ∧ storage.members db `prefix_of` storage.members db'
  ∧ (storage.ID <$> storage.videos db)
      `prefix_of` (storage.ID <$> storage.videos db').

(** Every video row names, as its uploader, a member of its
    conversation. *)
Definition uploads_by_members (db : storage.DB) : Prop :=
  Forall (λ v, storage.member_of (storage.ConversationID v)
                 (storage.Uploader v) db)
    (storage.videos db).

(** ** More of the scenario: bob joins conv-1, alice opens a conversation *)

Module visit.
Import conversations.

Definition bob_joins : JoinRequest :=
  mkJoinRequest (Some ("invite-abc", "bob")).

Definition join_calm : JoinEnv :=
  mkJoinEnv None None (rand.Bytes (λ _, Byte.xcd)) 7.

Definition alice_opens : CreateRequest :=
  mkCreateRequest [("waffle_session", "tok-alice")] (Some "Holidays").

Definition create_calm : CreateEnv :=
  mkCreateEnv (rand.Bytes (λ _, Byte.x01)) (rand.Bytes (λ _, Byte.x02))
    None None 9.

(** The conversation is stored, the insertion of its creator is refused. *)
Definition members_locked : CreateEnv :=
  mkCreateEnv (rand.Bytes (λ _, Byte.x01)) (rand.Bytes (λ _, Byte.x02))
    None (Some "database is locked") 9.

Definition conv_1 : storage.Conversation :=
  storage.mkConversation "conv-1" "invite-abc" "Test" 0.

End visit.

(** * Properties *)

(** ** The metadata store *)

Section storage_facts.
Import storage.


Lemma insert_desc_Permutation v l : insert_desc v l ≡ₚ v :: l.
Proof.
  induction l as [|x l IH]; simpl; [done|].
  destruct (UploadedAt x <=? UploadedAt v); [done|].
  rewrite IH. apply Permutation_swap.
Qed.

Lemma order_by_Permutation l : order_by_uploaded_at_desc l ≡ₚ l.
Proof.
  induction l as [|x l IH]; simpl; [done|].
  by rewrite insert_desc_Permutation, IH.
Qed.

Lemma insert_desc_sorted v l :
  StronglySorted newest_first l → StronglySorted newest_first (insert_desc v l).
Proof.
  induction 1 as [|x l Hs IH Hall]; simpl.
  - repeat constructor.
  - destruct (Z.leb_spec (UploadedAt x) (UploadedAt v)) as [Hle|Hlt].
    + constructor; [by constructor|].
      constructor; [done|].
      eapply Forall_impl; [exact Hall|].
      unfold newest_first. intros y Hy. lia.
    + constructor; [done|].
      rewrite insert_desc_Permutation.
      constructor; [unfold newest_first; lia | done].
Qed.

Lemma order_by_sorted l :
  StronglySorted newest_first (order_by_uploaded_at_desc l).
Proof.
  induction l; simpl; [constructor | by apply insert_desc_sorted].
Qed.

Lemma status_of_app id vs v db :
  status_of id (with_videos (vs ++ [v]) db) =
    if decide (id ∈ ID <$> vs) then status_of id (with_videos vs db)
    else if decide (ID v = id) then Some (Status v) else None.
Proof.
  unfold status_of. simpl.
  induction vs as [|x vs IH]; simpl.
  - rewrite filter_cons, filter_nil. by destruct (decide (ID v = id)).
  - rewrite !filter_cons. destruct (decide (ID x = id)) as [->|Hne]; simpl.
    + rewrite decide_True; [done | apply elem_of_cons; by left].
    + rewrite IH.
      destruct (decide (id ∈ ID <$> vs)) as [Hin|Hin];
        destruct (decide (id ∈ _ :: _)) as [Hin'|Hin']; try done.
      * exfalso. apply Hin'. apply elem_of_cons. by right.
      * apply elem_of_cons in Hin' as [?|?]; [congruence | done].
Qed.

Lemma status_of_None id db : id ∉ ID <$> videos db → status_of id db = None.
Proof.
  unfold status_of. induction (videos db) as [|x vs IH]; [done|].
  rewrite fmap_cons, not_elem_of_cons. intros [Hne Hni].
  rewrite filter_cons. destruct (decide (ID x = id)); [congruence|].
  by apply IH.
Qed.

Lemma status_of_is_Some id db :
  is_Some (status_of id db) → id ∈ ID <$> videos db.
Proof.
  intros [s Hs]. destruct (decide (id ∈ ID <$> videos db)); [done|].
  by rewrite status_of_None in Hs.
Qed.

Lemma status_of_UpdateVideoStatus id' st db id :
  status_of id (UpdateVideoStatus None id' st db).2 =
    if decide (id = id') then (λ _, st) <$> status_of id db
    else status_of id db.
Proof.
  unfold status_of, UpdateVideoStatus. cbn [snd videos with_videos].
  induction (videos db) as [|x vs IH].
  - by destruct (decide (id = id')).
  - rewrite fmap_cons, !filter_cons.
    destruct (decide (ID x = id')) as [Hx|Hx].
    + destruct (decide (id = id')) as [->|Hne]; simpl.
      * by rewrite !decide_True.
      * rewrite !decide_False by congruence. exact IH.
    + destruct (decide (ID x = id)) as [Hid|Hid].
      * destruct (decide (id = id')); [congruence | done].
      * exact IH.
Qed.

Lemma UpdateVideoStatus_ids drv id st db :
  ID <$> videos (UpdateVideoStatus drv id st db).2 = ID <$> videos db.
Proof.
  destruct drv; [done|]. simpl. rewrite <-list_fmap_compose.
  apply list_fmap_ext. intros i v _. simpl. by destruct (decide (ID v = id)).
Qed.

Lemma IsMember_spec conversationID username db :
  IsMember None conversationID username db =
    (bool_decide (member_of conversationID username db), None).
Proof.
  unfold IsMember, member_of. f_equal. apply bool_decide_ext.
  induction (members db) as [|m ms IH]; simpl.
  - split; [lia | by intros ?%Exists_nil].
  - rewrite filter_cons, Exists_cons.
    destruct (decide (is_member_row conversationID username m)); simpl.
    + split; [by left | lia].
    + rewrite IH. tauto.
Qed.

(** C7.  Listing the videos of a conversation gives exactly the rows of
    table [videos] whose conversation is the one asked for, whatever
    their status, each as often as it is stored, and gives them newest
    first. *)
Theorem GetVideosByConversation_exact_newest_first conversationID db :
  ∃ vs,
    GetVideosByConversation None conversationID db = (vs, None)
    ∧ vs ≡ₚ filter (λ v, ConversationID v = conversationID) (videos db)
    ∧ (∀ v, v ∈ vs ↔ v ∈ videos db ∧ ConversationID v = conversationID)
    ∧ StronglySorted newest_first vs.
Proof.
  eexists. split; [reflexivity|].
  split; [apply order_by_Permutation|].
  split; [|apply order_by_sorted].
  intros v. rewrite order_by_Permutation, list_elem_of_filter. tauto.
Qed.

(** C9 (as amended).  [UpdateVideoStatus] with an id that no row has
    does not fail when the driver executes the statement: it returns
    no error and leaves the database as it was. *)
Theorem UpdateVideoStatus_unknown_id_succeeds id status db :
  id ∉ ID <$> videos db →
  UpdateVideoStatus None id status db = (None, db).
Proof.
  intros Hni. unfold UpdateVideoStatus. f_equal.
  destruct db as [cs ms vs]. unfold with_videos. simpl in *. f_equal.
  induction vs as [|v vs IH]; [done|].
  rewrite fmap_cons in Hni. apply not_elem_of_cons in Hni as [Hne Hni].
  rewrite fmap_cons. rewrite decide_False by congruence.
  f_equal. by apply IH.
Qed.

Lemma AddMember_present t conversationID username db :
  member_of conversationID username db →
  AddMember None t conversationID username db = (None, db).
Proof. intros Hin. unfold AddMember. by rewrite decide_True. Qed.

Lemma AddMember_member_of t conversationID username db :
  member_of conversationID username
    (AddMember None t conversationID username db).2.
Proof.
  unfold AddMember, member_of.
  destruct (decide (Exists _ _)) as [Hex|Hex]; [done|]. simpl.
  apply Exists_app. right. by apply Exists_cons_hd.
Qed.

(** C10.  Adding a member who is already in the conversation returns no
    error and leaves the database, and with it the membership relation,
    as the first addition left it. *)
Theorem AddMember_idempotent t1 t2 conversationID username db :
  (AddMember None t1 conversationID username db).1 = None
  ∧ AddMember None t2 conversationID username
      (AddMember None t1 conversationID username db).2
    = (None, (AddMember None t1 conversationID username db).2).
Proof.
  split.
  - unfold AddMember. by destruct (decide (Exists _ _)).
  - apply AddMember_present, AddMember_member_of.
Qed.

End storage_facts.

(** C9: the claim fails for an id that is in no row. *)
Lemma UpdateVideoStatus_unknown_id_counterexample :
  storage.status_of "vid-404" storage.empty = None
  ∧ (storage.UpdateVideoStatus None "vid-404" "ready" storage.empty).1 = None.
Proof. split; reflexivity. Qed.

Lemma UpdateVideoStatus_unknown_id_witness :
  storage.UpdateVideoStatus None "vid-2" "ready"
    (storage.mkDB [] [] [storage.mkVideo "vid-1" "conv-1" "alice"
                           "/videos/conv-1/vid-1.mp4" "pending" 0])
  = (None,
     storage.mkDB [] [] [storage.mkVideo "vid-1" "conv-1" "alice"
                           "/videos/conv-1/vid-1.mp4" "pending" 0]).
Proof.
  apply UpdateVideoStatus_unknown_id_succeeds.
  apply (bool_decide_unpack _). vm_compute. exact I.
Defined.


(** ** Sessions and paths *)

Lemma requireSession_spec cookies w :
  requireSession cookies w =
    match authenticated cookies w with
    | Some session => inr session
    | None => inl (http.Error "unauthorized" http.StatusUnauthorized)
    end.
Proof.
  unfold requireSession, authenticated.
  destruct (auth.FromRequest cookies) as [token|]; simpl; [|done].
  by destruct (auth.Get token (sessions w)).
Qed.

Lemma String_length_app (s1 s2 : string) :
  String.length (s1 +:+ s2) = (String.length s1 + String.length s2)%nat.
Proof. induction s1; simpl; [done | by f_equal]. Qed.

Lemma allowedExtensions_length ext :
  videos.allowedExtensions ext = true → String.length ext = 4%nat.
Proof.
  unfold videos.allowedExtensions. intros H%bool_decide_eq_true.
  repeat (apply elem_of_cons in H as [->|H]; [done|]).
  by apply elem_of_nil in H.
Qed.

(** ** Hexadecimal digits *)

Section hex_facts.

Lemma hex_digit_is_hex n : (n < 16)%N → is_hex_digit (rand.hex_digit n) = true.
Proof.
  intros Hn. unfold is_hex_digit, rand.hex_digit.
  destruct (N.ltb_spec n 10).
  - rewrite N_ascii_embedding by lia.
    apply orb_true_iff. left. apply andb_true_iff. split; apply N.leb_le; lia.
  - rewrite N_ascii_embedding by lia.
    apply orb_true_iff. right. apply andb_true_iff. split; apply N.leb_le; lia.
Qed.

Lemma hex_value_digit n : (n < 16)%N → hex_value (rand.hex_digit n) = n.
Proof.
  intros Hn. unfold hex_value, rand.hex_digit.
  destruct (N.ltb_spec n 10).
  - rewrite N_ascii_embedding by lia.
    destruct (N.ltb_spec (48 + n) 97); lia.
  - rewrite N_ascii_embedding by lia.
    destruct (N.ltb_spec (87 + n) 97); lia.
Qed.

Lemma Byte_to_N_lt x : (Byte.to_N x < 256)%N.
Proof. by destruct x. Qed.

Lemma Byte_to_N_inj x y : Byte.to_N x = Byte.to_N y → x = y.
Proof.
  intros H. apply (f_equal Byte.of_N) in H.
  rewrite !Byte.of_to_N in H. congruence.
Qed.

Lemma EncodeToString_length b :
  String.length (rand.EncodeToString b) = (2 * length b)%nat.
Proof. induction b as [|x b IH]; simpl; [done | rewrite IH; lia]. Qed.

Lemma EncodeToString_hex b :
  all_chars is_hex_digit (rand.EncodeToString b) = true.
Proof.
  induction b as [|x b IH]; simpl; [done|].
  pose proof (Byte_to_N_lt x).
  rewrite !hex_digit_is_hex, IH; [done| |].
  - apply N.mod_lt. lia.
  - apply N.Div0.div_lt_upper_bound. lia.
Qed.

Lemma EncodeToString_inj b1 : ∀ b2,
  rand.EncodeToString b1 = rand.EncodeToString b2 → b1 = b2.
Proof.
  induction b1 as [|x b1 IH]; intros [|y b2]; simpl; try done.
  intros [= Hhi Hlo Hrest].
  pose proof (Byte_to_N_lt x). pose proof (Byte_to_N_lt y).
  apply (f_equal hex_value) in Hhi, Hlo.
  rewrite !hex_value_digit in Hhi, Hlo;
    try (apply N.mod_lt; lia); try (apply N.Div0.div_lt_upper_bound; lia).
  f_equal; [|by apply IH].
  apply Byte_to_N_inj.
  rewrite (N.div_mod (Byte.to_N x) 16), (N.div_mod (Byte.to_N y) 16) by lia.
  by rewrite Hhi, Hlo.
Qed.

End hex_facts.

(** ** Paths *)

Section path_facts.
Import filepath.

Lemma elements_from_one name :
  one_element name = true → elements_from name = (name, []).
Proof.
  induction name as [|c name IH]; [done|]. simpl.
  intros [Hc Hrest]%andb_prop. rewrite (IH Hrest).
  by destruct (Ascii.eqb c "/").
Qed.

Lemma append_String c (s1 s2 : string) :
  String c s1 +:+ s2 = String c (s1 +:+ s2).
Proof. reflexivity. Qed.

Lemma append_empty_l (s : string) : EmptyString +:+ s = s.
Proof. reflexivity. Qed.

Lemma append_assoc (s1 s2 s3 : string) :
  (s1 +:+ s2) +:+ s3 = s1 +:+ s2 +:+ s3.
Proof.
  induction s1 as [|c s1 IH]; [done|]. rewrite !append_String. by f_equal.
Qed.

Lemma elements_app s1 s2 :
  elements (s1 +:+ "/" +:+ s2) = elements s1 ++ elements s2.
Proof.
  unfold elements. induction s1 as [|c s1 IH].
  - rewrite append_empty_l, append_String, append_empty_l. simpl.
    by destruct (elements_from s2).
  - rewrite append_String. simpl.
    destruct (elements_from (s1 +:+ "/" +:+ s2)) as [e es].
    destruct (elements_from s1) as [e1 es1].
    injection IH as -> ->. by destruct (Ascii.eqb c "/").
Qed.

Lemma rooted_app s1 s2 : s1 ≠ EmptyString → rooted (s1 +:+ s2) = rooted s1.
Proof. by destruct s1. Qed.

Lemma join_sep_snoc l : ∃ pre, ∀ x, join_sep (l ++ [x]) = pre +:+ x.
Proof.
  induction l as [|e l [pre IH]]; [by exists EmptyString|].
  exists (e +:+ "/" +:+ pre). intros x. simpl. rewrite IH.
  destruct (l ++ [x]) eqn:Hl; [by destruct l|].
  by rewrite !append_assoc.
Qed.

Lemma append_not_empty (s1 s2 : string) :
  s2 ≠ EmptyString → s1 +:+ s2 ≠ EmptyString.
Proof. by destruct s1. Qed.

Lemma clean_element_plain b out name :
  name ≠ EmptyString → name ≠ "." → name ≠ ".." →
  clean_element b out name = name :: out.
Proof.
  intros Hne Hdot Hdots. unfold clean_element.
  rewrite decide_False by (by intros [|]). by rewrite decide_False.
Qed.

Lemma clean_elements_snoc b path name :
  one_element name = true →
  name ≠ EmptyString → name ≠ "." → name ≠ ".." →
  foldl (clean_element b) [] (elements (path +:+ "/" +:+ name))
  = name :: foldl (clean_element b) [] (elements path).
Proof.
  intros Hone Hne Hdot Hdots. rewrite elements_app, foldl_app.
  assert (elements name = [name]) as ->.
  { unfold elements. by rewrite elements_from_one. }
  simpl. by apply clean_element_plain.
Qed.

(** The last element of a cleaned path is the name that was joined on,
    when the name is one plain element. *)
Lemma Clean_one_element path :
  ∃ pre, ∀ name,
    one_element name = true →
    name ≠ EmptyString → name ≠ "." → name ≠ ".." →
    path ≠ EmptyString →
    Clean (path +:+ "/" +:+ name) = pre +:+ name.
Proof.
  destruct (join_sep_snoc
              (reverse (foldl (clean_element (rooted path)) []
                          (elements path)))) as [pre Hpre].
  exists (if rooted path then "/" +:+ pre else pre).
  intros name Hone Hne Hdot Hdots Hpath. unfold Clean.
  rewrite rooted_app, clean_elements_snoc, reverse_cons, Hpre by done.
  destruct (rooted path); [by rewrite append_assoc|].
  rewrite decide_False; [done|]. by apply append_not_empty.
Qed.

Lemma rooted_one_element name : one_element name = true → rooted name = false.
Proof.
  destruct name as [|c name]; [done|]. simpl.
  intros [Hc _]%andb_prop. by destruct (Ascii.eqb c "/").
Qed.

Lemma Clean_name name :
  one_element name = true →
  name ≠ EmptyString → name ≠ "." → name ≠ ".." →
  Clean name = name.
Proof.
  intros Hone Hne Hdot Hdots. unfold Clean, elements.
  rewrite elements_from_one, rooted_one_element by done.
  cbn [foldl]. rewrite clean_element_plain by done.
  cbn [reverse rev_append join_sep]. by rewrite decide_False.
Qed.

Lemma Join_one_element dir :
  ∃ pre, ∀ name,
    one_element name = true →
    name ≠ EmptyString → name ≠ "." → name ≠ ".." →
    Join dir name = pre +:+ name.
Proof.
  unfold Join. destruct (decide (dir = EmptyString)) as [->|Hdir].
  - exists EmptyString. intros name Hone Hne Hdot Hdots.
    rewrite decide_False by done. by apply Clean_name.
  - destruct (Clean_one_element dir) as [pre Hpre]. exists pre.
    intros name Hone Hne Hdot Hdots. by apply Hpre.
Qed.

Lemma one_element_app s1 s2 :
  one_element (s1 +:+ s2) = one_element s1 && one_element s2.
Proof.
  induction s1 as [|c s1 IH]; [done|]. simpl. by rewrite IH, andb_assoc.
Qed.

Lemma hex_one_element s :
  all_chars is_hex_digit s = true → one_element s = true.
Proof.
  induction s as [|c s IH]; [done|]. simpl.
  intros [Hc Hs]%andb_prop. rewrite IH, andb_true_r by done.
  destruct (Ascii.eqb_spec c "/") as [->|]; [|done].
  vm_compute in Hc. discriminate.
Qed.

End path_facts.

(** An id that was generated has no separator in it. *)
Lemma generateID_one_element src videoID :
  videos.generateID src = (videoID, None) →
  filepath.one_element videoID = true.
Proof.
  unfold videos.generateID, rand.generateHex. destruct src as [e|f]; [done|].
  intros Heq. apply (f_equal fst) in Heq. cbv beta iota delta [fst] in Heq.
  rewrite <-Heq. apply hex_one_element, EncodeToString_hex.
Qed.

(** The original and the canonical file of one upload are two files. *)
Lemma originalPath_ne_outputPath convDir videoID ext :
  videos.allowedExtensions ext = true →
  filepath.one_element videoID = true →
  videos.originalPath convDir videoID ext ≠ videos.outputPath convDir videoID.
Proof.
  intros Hext Hid. pose proof (allowedExtensions_length _ Hext) as Hlen.
  assert (Hone : filepath.one_element ext = true).
  { unfold videos.allowedExtensions in Hext.
    apply bool_decide_eq_true in Hext.
    repeat (apply elem_of_cons in Hext as [->|Hext]; [done|]).
    by apply elem_of_nil in Hext. }
  unfold videos.originalPath, videos.outputPath.
  destruct (Join_one_element convDir) as [pre Hpre].
  assert (Hlong : ∀ (s t : string),
            (String.length t < String.length s)%nat → s ≠ t).
  { intros s t Hlt ->. lia. }
  rewrite !Hpre.
  - intros Heq%(inj _). apply (f_equal String.length) in Heq.
    rewrite !String_length_app, Hlen in Heq. simpl in Heq. lia.
  - by rewrite one_element_app, Hid.
  - apply Hlong. rewrite String_length_app. simpl. lia.
  - apply Hlong. rewrite String_length_app. simpl. lia.
  - apply Hlong. rewrite String_length_app. simpl. lia.
  - by rewrite !one_element_app, Hid, Hone.
  - apply Hlong. rewrite !String_length_app. simpl. lia.
  - apply Hlong. rewrite !String_length_app. simpl. lia.
  - apply Hlong. rewrite !String_length_app. simpl. lia.
Qed.

Lemma CreateVideo_error drv now id c u f db e db' :
  storage.CreateVideo drv now id c u f db = (Some e, db') → db' = db.
Proof.
  unfold storage.CreateVideo. destruct drv; [congruence|].
  destruct (decide _); congruence.
Qed.

Lemma IsMember_true drv c u db :
  storage.IsMember drv c u db = (true, None) →
  drv = None ∧ storage.member_of c u db.
Proof.
  destruct drv; [done|]. rewrite IsMember_spec. intros [= H].
  by apply bool_decide_eq_true in H.
Qed.

(** ** The upload handler *)

Ltac split_match :=
  match goal with
  | |- context [match ?x with _ => _ end] => destruct x eqn:?
  end.

Section upload_facts.
Import videos.
Context (h : Handler) (env : UploadEnv) (r : UploadRequest) (w : World).

(** Every way through [Upload]: it answers without touching the world,
    or it got as far as the conversation directory. *)
Lemma Upload_accepted_inv resp w' started :
  Upload h env r w = (resp, w', started) →
  http.code resp = http.StatusAccepted →
  ∃ session form header_Filename content videoID,
    let ext := strings_pkg.ToLower (unicode_lower env)
                 (filepath.Ext header_Filename) in
    let convDir := filepath.Join (VideosDir h) (conversation_id form) in
    authenticated (up_cookies r) w = Some session
    ∧ ParseMultipartForm r = Some form
    ∧ conversation_id form ≠ EmptyString
    ∧ storage.IsMember (ismember_drv env) (conversation_id form)
        (auth.Username session) (db w) = (true, None)
    ∧ file form = Some (header_Filename, content)
    ∧ allowedExtensions ext = true
    ∧ generateID (id_source env) = (videoID, None)
    ∧ mkdir_err env = None ∧ create_err env = None ∧ copy_fault env = None
    ∧ createvideo_drv env = None
    ∧ (videoID ∉ storage.ID <$> storage.videos (db w))
    ∧ resp = http.mkResponse http.StatusAccepted
               (http.Object [("status", "pending"); ("video_id", videoID)])
               None
    ∧ started = Some (mkTask videoID (originalPath convDir videoID ext)
                        (outputPath convDir videoID))
    ∧ db w' = storage.with_videos
                (storage.videos (db w) ++
                   [storage.mkVideo videoID (conversation_id form)
                      (auth.Username session) (outputPath convDir videoID)
                      "pending" (now env)]) (db w)
    ∧ sessions w' = sessions w
    ∧ os.files (fs w') =
        <[originalPath convDir videoID ext := content]> (os.files (fs w)).
Proof.
  unfold Upload. rewrite requireSession_spec.
  destruct (authenticated _ _) as [session|] eqn:Hs;
    [|by intros [= <- <- <-]].
  destruct (ParseMultipartForm r) as [form|] eqn:Hf;
    [|by intros [= <- <- <-]].
  destruct (decide (conversation_id form = EmptyString)) as [|Hc];
    [by intros [= <- <- <-]|].
  destruct (storage.IsMember _ _ _ _) as [[] [e|]] eqn:Hm;
    try by intros [= <- <- <-].
  destruct (file form) as [[fn content]|] eqn:Hfile;
    [|by intros [= <- <- <-]].
  destruct (allowedExtensions _) eqn:Hext; simpl;
    [|by intros [= <- <- <-]].
  destruct (generateID _) as [videoID [e|]] eqn:Hid;
    [by intros [= <- <- <-]|].
  unfold os.MkdirAll, saveFile, os.Create, os.Copy, storage.CreateVideo.
  destruct (mkdir_err env); [by intros [= <- <- <-]|].
  destruct (create_err env); [by intros [= <- <- <-]|].
  destruct (copy_fault env) as [[n e]|]; [by intros [= <- <- <-]|].
  destruct (createvideo_drv env); [by intros [= <- <- <-]|].
  destruct (decide (videoID ∈ _)) as [|Hfresh]; [by intros [= <- <- <-]|].
  intros [= <- <- <-] _.
  exists session, form, fn, content, videoID. simpl.
  split_and!; try done.
  by rewrite insert_insert_eq.
Qed.

(** A request that is not accepted leaves the database and the sessions
    alone and starts no worker. *)
Lemma Upload_not_accepted resp w' started :
  Upload h env r w = (resp, w', started) →
  http.code resp ≠ http.StatusAccepted →
  db w' = db w ∧ sessions w' = sessions w ∧ started = None.
Proof.
  unfold Upload. rewrite requireSession_spec.
  repeat (first [ intros [= <- <- <-]; intros Hcode; by simpl in *
                | split_match ]).
  intros [= <- <- <-]; intros Hcode; simpl in *. split_and!; try done.
  eauto using CreateVideo_error.
Qed.

(** C1.  An upload by an authenticated member, with an allowed
    extension, whose write and whose record creation succeed, is
    accepted: the handler answers at once with the accepted signal that
    carries the video id and "pending", and the worker is started, not
    run; at that moment the row of the video is stored with status
    "pending" and with the canonical path
    <conversation directory>/<id>.mp4, the conversation directory is
    there, and the original file holds the uploaded bytes at
    <conversation directory>/original_<id><ext>.  And the accepted
    signal is given to such an upload only. *)
Theorem Upload_accepted_record_and_original :
  (∀ session form header_Filename content videoID,
     let ext := strings_pkg.ToLower (unicode_lower env)
                  (filepath.Ext header_Filename) in
     let convDir := filepath.Join (VideosDir h) (conversation_id form) in
     let original :=
       filepath.Join convDir ("original_" +:+ videoID +:+ ext) in
     let canonical := filepath.Join convDir (videoID +:+ ".mp4") in
     authenticated (up_cookies r) w = Some session →
     ParseMultipartForm r = Some form →
     conversation_id form ≠ EmptyString →
     ismember_drv env = None →
     storage.member_of (conversation_id form) (auth.Username session)
       (db w) →
     file form = Some (header_Filename, content) →
     allowedExtensions ext = true →
     generateID (id_source env) = (videoID, None) →
     mkdir_err env = None → create_err env = None → copy_fault env = None →
     createvideo_drv env = None →
     videoID ∉ storage.ID <$> storage.videos (db w) →
     ∃ w',
       Upload h env r w =
         (http.mkResponse http.StatusAccepted
            (http.Object [("status", "pending"); ("video_id", videoID)])
            None,
          w', Some (mkTask videoID original canonical))
       ∧ storage.videos (db w') =
           storage.videos (db w) ++
             [storage.mkVideo videoID (conversation_id form)
                (auth.Username session) canonical "pending" (now env)]
       ∧ storage.status_of videoID (db w') = Some "pending"
       ∧ convDir ∈ os.dirs (fs w')
       ∧ os.files (fs w') !! original = Some content
       ∧ os.files (fs w') !! canonical = os.files (fs w) !! canonical)
  ∧ (∀ resp w' started,
       Upload h env r w = (resp, w', started) →
       http.code resp = http.StatusAccepted →
       ∃ session form header_Filename content videoID,
         authenticated (up_cookies r) w = Some session
         ∧ ParseMultipartForm r = Some form
         ∧ conversation_id form ≠ EmptyString
         ∧ ismember_drv env = None
         ∧ storage.member_of (conversation_id form) (auth.Username session)
             (db w)
         ∧ file form = Some (header_Filename, content)
         ∧ allowedExtensions
             (strings_pkg.ToLower (unicode_lower env)
                (filepath.Ext header_Filename)) = true
         ∧ generateID (id_source env) = (videoID, None)
         ∧ mkdir_err env = None ∧ create_err env = None
         ∧ copy_fault env = None
         ∧ createvideo_drv env = None
         ∧ (videoID ∉ storage.ID <$> storage.videos (db w))).
Proof.
  split.
  - intros session form fn content videoID. cbv zeta.
    intros Hs Hf Hc Hdrv Hmem Hfile Hext Hid Hmk Hcr Hcp Hcv Hfresh.
    pose proof (generateID_one_element _ _ Hid) as Hone.
    unfold Upload. rewrite requireSession_spec, Hs, Hf.
    rewrite decide_False by done.
    rewrite Hdrv, IsMember_spec, bool_decide_eq_true_2 by done.
    rewrite Hfile. cbv zeta. rewrite Hext. cbn [negb]. rewrite Hid.
    unfold os.MkdirAll, saveFile, os.Create, os.Copy, storage.CreateVideo.
    rewrite Hmk, Hcr, Hcp, Hcv. rewrite decide_False by done.
    eexists. split; [reflexivity|]. cbn [db fs with_db with_fs].
    split_and!.
    + done.
    + rewrite status_of_app. rewrite decide_False by done.
      by rewrite decide_True.
    + cbn [os.dirs]. apply elem_of_union_l. by apply elem_of_singleton.
    + cbn [os.files]. apply lookup_insert_eq.
    + cbn [os.files]. rewrite !lookup_insert_ne; [done|..];
        by apply originalPath_ne_outputPath.
  - intros resp w' started HU Hcode.
    destruct (Upload_accepted_inv _ _ _ HU Hcode)
      as (session & form & fn & content & videoID & Hs & Hf & Hc & Hm
          & Hfile & Hext & Hid & Hmk & Hcr & Hcp & Hcv & Hfresh & _).
    apply IsMember_true in Hm as [Hdrv Hmem].
    exists session, form, fn, content, videoID. by split_and!.
Qed.

Lemma ParseMultipartForm_Some form :
  ParseMultipartForm r = Some form → up_form r = Some form.
Proof. unfold ParseMultipartForm. by destruct (_ <? _). Qed.

(** C5.  An upload whose file name has an extension that, in lower case,
    is not one of the four allowed ones is never accepted and changes
    nothing: the world is as before (no row is created, no file is
    written) and no worker is started.  The answer is a client error,
    but for one case: when the membership query, which comes before the
    check of the extension, fails in the database, the answer is the
    internal error.  For a request that reaches the check of the
    extension the answer is the bad request that names the extension. *)
Theorem Upload_disallowed_extension form header_Filename content :
  up_form r = Some form →
  file form = Some (header_Filename, content) →
  allowedExtensions
    (strings_pkg.ToLower (unicode_lower env) (filepath.Ext header_Filename))
    = false →
  ∃ resp,
    Upload h env r w = (resp, w, None)
    ∧ http.code resp ≠ http.StatusAccepted
    ∧ (http.client_error resp
       ∨ (resp = internal_error
          ∧ ∃ session e,
              authenticated (up_cookies r) w = Some session
              ∧ ParseMultipartForm r = Some form
              ∧ conversation_id form ≠ EmptyString
              ∧ ismember_drv env = Some e))
    ∧ (ismember_drv env = None → http.client_error resp)
    ∧ (∀ session,
         authenticated (up_cookies r) w = Some session →
         ParseMultipartForm r = Some form →
         conversation_id form ≠ EmptyString →
         storage.IsMember (ismember_drv env) (conversation_id form)
           (auth.Username session) (db w) = (true, None) →
         resp = http.Error
                  ("unsupported file type: " +:+
                     strings_pkg.ToLower (unicode_lower env)
                       (filepath.Ext header_Filename))
                  http.StatusBadRequest).
Proof.
  intros Hform Hfile Hext. unfold Upload. rewrite requireSession_spec.
  assert (H401 : http.client_error
                   (http.Error "unauthorized" http.StatusUnauthorized)).
  { unfold http.client_error, http.StatusUnauthorized. simpl. lia. }
  assert (H403 : http.client_error
                   (http.Error "forbidden" http.StatusForbidden)).
  { unfold http.client_error, http.StatusForbidden. simpl. lia. }
  assert (H400 : ∀ msg,
            http.client_error (http.Error msg http.StatusBadRequest)).
  { intros msg. unfold http.client_error, http.StatusBadRequest. simpl. lia. }
  destruct (authenticated _ _) as [session|] eqn:Hs.
  2:{ eexists. split_and!; [done | done | by left | by intros _ | done]. }
  destruct (ParseMultipartForm r) as [form'|] eqn:Hf.
  2:{ eexists. split_and!; [done | done | by left | by intros _ | done]. }
  pose proof Hf as Hf'.
  apply ParseMultipartForm_Some in Hf'.
  assert (form' = form) as -> by congruence.
  destruct (decide (conversation_id form = EmptyString)) as [|Hc].
  { eexists. split_and!; [done | done | by left | by intros _ | done]. }
  destruct (ismember_drv env) as [e|] eqn:Hdrv.
  - simpl. eexists. split_and!; [done | done | | done | ].
    + right. split; [done|]. by exists session, e.
    + by intros ? [= <-] _ _ ?.
  - rewrite IsMember_spec. case_bool_decide as Hmem.
    + rewrite Hfile. cbv zeta. rewrite Hext. cbn [negb].
      eexists. split_and!; [done | done | by left | by intros _ |].
      by intros ? [= <-] _ _ _.
    + eexists. split_and!; [done | done | by left | by intros _ |].
      intros ? [= <-] _ _ Hyes. rewrite IsMember_spec in Hyes.
      injection Hyes as Hyes. by apply bool_decide_eq_true in Hyes.
Qed.

(** When the copy of the upload stops on an error after [n] bytes, the
    handler answers with the internal error and leaves those [n] bytes
    in the original file. *)
Lemma Upload_copy_fault session form header_Filename content videoID n e :
  authenticated (up_cookies r) w = Some session →
  ParseMultipartForm r = Some form →
  conversation_id form ≠ EmptyString →
  storage.IsMember (ismember_drv env) (conversation_id form)
    (auth.Username session) (db w) = (true, None) →
  file form = Some (header_Filename, content) →
  allowedExtensions
    (strings_pkg.ToLower (unicode_lower env) (filepath.Ext header_Filename))
    = true →
  generateID (id_source env) = (videoID, None) →
  mkdir_err env = None → create_err env = None →
  copy_fault env = Some (n, e) →
  ∃ w',
    Upload h env r w = (internal_error, w', None)
    ∧ db w' = db w
    ∧ os.files (fs w') !!
        originalPath (filepath.Join (VideosDir h) (conversation_id form))
          videoID
          (strings_pkg.ToLower (unicode_lower env)
             (filepath.Ext header_Filename))
      = Some (take n content).
Proof.
  intros Hs Hf Hc Hm Hfile Hext Hid Hmk Hcr Hcp.
  unfold Upload. rewrite requireSession_spec, Hs, Hf.
  rewrite decide_False by done. rewrite Hm, Hfile, Hext. simpl.
  rewrite Hid. unfold os.MkdirAll, saveFile, os.Create, os.Copy.
  rewrite Hmk, Hcr, Hcp. eexists. split_and!; [done|done|].
  simpl. apply lookup_insert_eq.
Qed.

(** The sibling path: when the row cannot be created after the write,
    the original file is removed again. *)
Lemma Upload_record_failure session form header_Filename content videoID e db' :
  authenticated (up_cookies r) w = Some session →
  ParseMultipartForm r = Some form →
  conversation_id form ≠ EmptyString →
  storage.IsMember (ismember_drv env) (conversation_id form)
    (auth.Username session) (db w) = (true, None) →
  file form = Some (header_Filename, content) →
  allowedExtensions
    (strings_pkg.ToLower (unicode_lower env) (filepath.Ext header_Filename))
    = true →
  generateID (id_source env) = (videoID, None) →
  mkdir_err env = None → create_err env = None → copy_fault env = None →
  storage.CreateVideo (createvideo_drv env) (now env) videoID
    (conversation_id form) (auth.Username session)
    (outputPath (filepath.Join (VideosDir h) (conversation_id form)) videoID)
    (db w) = (Some e, db') →
  remove_err env = None →
  ∃ w',
    Upload h env r w = (internal_error, w', None)
    ∧ db w' = db w
    ∧ os.files (fs w') !!
        originalPath (filepath.Join (VideosDir h) (conversation_id form))
          videoID
          (strings_pkg.ToLower (unicode_lower env)
             (filepath.Ext header_Filename))
      = None.
Proof.
  intros Hs Hf Hc Hm Hfile Hext Hid Hmk Hcr Hcp Hcv Hrm.
  unfold Upload. rewrite requireSession_spec, Hs, Hf.
  rewrite decide_False by done. rewrite Hm, Hfile, Hext. simpl.
  rewrite Hid. unfold os.MkdirAll, saveFile, os.Create, os.Copy.
  rewrite Hmk, Hcr, Hcp, Hcv, Hrm. apply CreateVideo_error in Hcv as ->.
  eexists. split_and!; [done|done|].
  unfold os.Remove. simpl. rewrite lookup_insert_eq. simpl.
  apply lookup_delete_eq.
Qed.

End upload_facts.

(** C4 (the code at the failing input).  Alice's upload of clip.mp4 when
    the disk fills up after one byte: the answer is the internal error,
    no row is stored, and the original file stays on disk with that one
    byte. *)
Theorem Upload_write_failure_leaves_partial_file :
  let '(resp, w', started) :=
    videos.Upload scenario.handler scenario.disk_full
      (scenario.upload_of "tok-alice" "clip.mp4") scenario.joined in
  resp = videos.internal_error
  ∧ started = None
  ∧ storage.videos (db w') = []
  ∧ os.files (fs scenario.joined) !! scenario.original = None
  ∧ os.files (fs w') !! scenario.original = Some [Byte.x00].
Proof. vm_compute. done. Qed.


(** ** Authentication and membership come first *)

Section gate_facts.
Import videos.
Context (h : Handler).

Lemma List_world env r w : (List h env r w).2 = w.
Proof.
  unfold List. destruct (requireSession _ _); [done|].
  destruct (decide _); [done|].
  destruct (storage.IsMember _ _ _ _) as [[] []]; try done.
  by destruct (storage.GetVideosByConversation _ _ _) as [? []].
Qed.







(** A member's listing is the query's answer, row by row. *)
Lemma List_member env r w session :
  authenticated (ls_cookies r) w = Some session →
  ls_conversation_id r ≠ EmptyString →
  ls_ismember_drv env = None → ls_query_drv env = None →
  storage.member_of (ls_conversation_id r) (auth.Username session) (db w) →
  List h env r w =
    (http.mkResponse http.StatusOK
       (http.VideoList
          (to_item <$>
             (storage.GetVideosByConversation None (ls_conversation_id r)
                (db w)).1)) None, w).
Proof.
  intros Hs Hc Hdrv Hq Hm. unfold List.
  rewrite requireSession_spec, Hs, decide_False by done.
  by rewrite Hdrv, IsMember_spec, bool_decide_eq_true_2, Hq.
Qed.

End gate_facts.


(** ** The transcode worker *)

Section transcode_facts.
Import videos.
Context (env : TranscodeEnv) (videoID inputPath outputPath : string).

Lemma same_but_refl w : same_but outputPath w w.
Proof. by repeat split. Qed.

Lemma same_but_trans w1 w2 w3 :
  same_but outputPath w1 w2 → same_but outputPath w2 w3 →
  same_but outputPath w1 w3.
Proof.
  intros (? & ? & ? & H12) (? & ? & ? & H23).
  repeat split; try congruence.
  intros p Hp. by rewrite H23, H12.
Qed.

Lemma same_but_run_ffmpeg o w :
  same_but outputPath w (with_fs (run_ffmpeg o outputPath (fs w)) w).
Proof.
  destruct o as [out|[part|] d]; simpl; repeat split; try done.
  all: intros p Hp; simpl; by rewrite lookup_insert_ne.
Qed.

(** [n] failing attempts in a row: the loop goes on from attempt
    [attempt + n] in a world that differs at most in the output file. *)
Lemma transcode_from_failures n :
  ∀ remaining attempt w,
    (∀ j, (attempt ≤ j < attempt + n)%nat →
          ffmpeg_succeeds (ffmpeg env j) = false) →
    ∃ w1,
      same_but outputPath w w1
      ∧ transcode_from env videoID inputPath outputPath
          (n + remaining) attempt w =
        let '(w', evs) :=
          transcode_from env videoID inputPath outputPath remaining
            (attempt + n) w1 in
        (w', flat_map (failed_attempt inputPath outputPath) (seq attempt n)
               ++ evs).
Proof.
  induction n as [|n IH]; intros remaining attempt w Hfail.
  - exists w. split; [apply same_but_refl|].
    simpl. rewrite Nat.add_0_r. by destruct (transcode_from _ _ _ _ _ _ _).
  - simpl. rewrite Hfail by lia.
    set (w0 := with_fs (run_ffmpeg (ffmpeg env attempt) outputPath (fs w)) w).
    destruct (IH remaining (S attempt) w0) as (w1 & Hsame & ->).
    { intros j Hj. apply Hfail. lia. }
    exists w1. split.
    { eapply same_but_trans; [apply same_but_run_ffmpeg | exact Hsame]. }
    replace (attempt + S n)%nat with (S attempt + n)%nat by lia.
    destruct (transcode_from _ _ _ _ _ _ w1) as [w' evs].
    unfold failed_attempt at 2. simpl. by rewrite <-app_assoc.
Qed.

(** Before the last attempt allowed, a failing attempt is followed by
    the wait. *)
Lemma failed_attempt_waits n : ∀ first,
  (first + n ≤ maxRetries)%nat →
  flat_map (failed_attempt inputPath outputPath) (seq first n) =
  flat_map (λ j, [EvConvert j inputPath outputPath false;
                  EvSleep retryDelay]) (seq first n).
Proof.
  induction n as [|n IH]; intros first Hle; [done|].
  cbn [seq flat_map]. rewrite IH by lia. unfold failed_attempt.
  rewrite bool_decide_eq_true_2; [done | lia].
Qed.

(** C3.  When every attempt fails, the worker runs the converter
    exactly [maxRetries] (3) times, waits the same [retryDelay] between
    two attempts and does not wait after the last one, never removes
    the original, which stays as it was, and ends by asking for status
    "error"; the row of the video then holds "error" (when the driver
    executes the statement). *)
Theorem transcode_all_attempts_fail w :
  (∀ attempt, (1 ≤ attempt ≤ maxRetries)%nat →
              ffmpeg_succeeds (ffmpeg env attempt) = false) →
  inputPath ≠ outputPath →
  ∃ w' err,
    transcode env videoID inputPath outputPath w =
      (w', [EvConvert 1 inputPath outputPath false; EvSleep retryDelay;
            EvConvert 2 inputPath outputPath false; EvSleep retryDelay;
            EvConvert 3 inputPath outputPath false;
            EvUpdateStatus videoID "error" err])
    ∧ length (filter is_convert
                (transcode env videoID inputPath outputPath w).2)
      = maxRetries
    ∧ os.files (fs w') !! inputPath = os.files (fs w) !! inputPath
    ∧ (t_update_drv env = None →
       err = None
       ∧ (is_Some (storage.status_of videoID (db w)) →
          storage.status_of videoID (db w') = Some "error")).
Proof.
  intros Hfail Hne. unfold transcode.
  destruct (transcode_from_failures maxRetries 0 1 w)
    as (w1 & (Hdb & _ & _ & Hfiles) & Heq).
  { intros j Hj. apply Hfail. unfold maxRetries in *. lia. }
  rewrite Nat.add_0_r in Heq. rewrite Heq. clear Heq. simpl.
  destruct (storage.UpdateVideoStatus _ _ _ _) as [err db1] eqn:Hupd.
  exists (with_db db1 w1), err. split_and!; [done|done|by apply Hfiles|].
  intros Hdrv. rewrite Hdrv, Hdb in Hupd. split.
  - by injection Hupd as <- _.
  - intros [st Hst]. simpl.
    replace db1 with (storage.UpdateVideoStatus None videoID "error" (db w)).2
      by by rewrite Hupd.
    rewrite status_of_UpdateVideoStatus, decide_True by done.
    by rewrite Hst.
Qed.

(** C2 (as amended).  When attempt [k] is the first to succeed, the
    worker makes no further attempt; it asks for the removal of the
    original after that conversion and not before, and then, whatever
    the removal answered, for status "ready".  Afterwards the canonical
    file holds the converter's output; the row of the video holds
    "ready" (when the driver executes the statement); the original is
    gone, unless its removal was refused: then it is still there as it
    was. *)
Theorem transcode_first_success w k out :
  (1 ≤ k ≤ maxRetries)%nat →
  (∀ j, (1 ≤ j < k)%nat → ffmpeg_succeeds (ffmpeg env j) = false) →
  ffmpeg env k = FfmpegOk out →
  inputPath ≠ outputPath →
  ∃ w' rerr uerr,
    transcode env videoID inputPath outputPath w =
      (w', failed_attempts inputPath outputPath (k - 1) ++
           [EvConvert k inputPath outputPath true;
            EvRemove inputPath rerr;
            EvUpdateStatus videoID "ready" uerr])
    ∧ os.files (fs w') !! outputPath = Some out
    ∧ os.files (fs w') !! inputPath =
        match t_remove_err env with
        | None => None
        | Some _ => os.files (fs w) !! inputPath
        end
    ∧ (rerr = None ↔
       is_Some (os.files (fs w) !! inputPath) ∧ t_remove_err env = None)
    ∧ (t_update_drv env = None →
       uerr = None
       ∧ (is_Some (storage.status_of videoID (db w)) →
          storage.status_of videoID (db w') = Some "ready")).
Proof.
  intros Hk Hfail Hok Hne. unfold transcode.
  destruct (transcode_from_failures (k - 1) (maxRetries - (k - 1)) 1 w)
    as (w1 & (Hdb & _ & _ & Hfiles) & Heq).
  { intros j Hj. apply Hfail. lia. }
  replace (k - 1 + (maxRetries - (k - 1)))%nat with maxRetries in Heq by lia.
  rewrite Heq. clear Heq.
  replace (1 + (k - 1))%nat with k by lia.
  destruct (maxRetries - (k - 1))%nat as [|remaining] eqn:Hrem; [lia|].
  simpl. rewrite Hok. simpl.
  assert (Hin : os.files (fs w1) !! inputPath = os.files (fs w) !! inputPath)
    by by apply Hfiles.
  assert (Hprefix :
    flat_map (failed_attempt inputPath outputPath) (seq 1 (k - 1)) =
    failed_attempts inputPath outputPath (k - 1)).
  { unfold failed_attempts. apply failed_attempt_waits. lia. }
  rewrite Hprefix. clear Hprefix.
  unfold os.Remove. simpl. rewrite lookup_insert_ne by done. rewrite Hin.
  destruct (storage.UpdateVideoStatus _ _ _ _) as [uerr db2] eqn:Hupd.
  assert (Hstatus : t_update_drv env = None →
    uerr = None
    ∧ (is_Some (storage.status_of videoID (db w)) →
       storage.status_of videoID db2 = Some "ready")).
  { intros Hdrv. rewrite Hdrv, Hdb in Hupd. split.
    - by injection Hupd as <- _.
    - intros [st Hst].
      replace db2 with (storage.UpdateVideoStatus None videoID "ready" (db w)).2
        by by rewrite Hupd.
      rewrite status_of_UpdateVideoStatus, decide_True by done.
      by rewrite Hst. }
  destruct (os.files (fs w) !! inputPath) as [content|] eqn:Hfile;
    destruct (t_remove_err env) as [e|] eqn:Hrm; simpl.
  - eexists _, _, _. split; [reflexivity|]. simpl.
    split_and!; [apply lookup_insert_eq | by rewrite lookup_insert_ne
                | split; [done | by intros [_ ?]] | done].
  - eexists _, _, _. split; [reflexivity|]. simpl.
    split_and!; [|apply lookup_delete_eq |done |done].
    rewrite lookup_delete_ne by done. apply lookup_insert_eq.
  - eexists _, _, _. split; [reflexivity|]. simpl.
    split_and!; [apply lookup_insert_eq
                | by rewrite lookup_insert_ne, Hin
                | split; [done | by intros [[] ?]] | done].
  - eexists _, _, _. split; [reflexivity|]. simpl.
    split_and!; [apply lookup_insert_eq
                | by rewrite lookup_insert_ne, Hin
                | split; [done | by intros [[] ?]] | done].
Qed.

End transcode_facts.


(** ** The status of a video only moves forward *)

Section status_facts.
Import videos.
Context (h : Handler).

Lemma status_move_refl o : status_move o o.
Proof. destruct o; simpl; auto. Qed.

Lemma status_of_videos id db1 db2 :
  storage.videos db1 = storage.videos db2 →
  storage.status_of id db1 = storage.status_of id db2.
Proof. unfold storage.status_of. by intros ->. Qed.

Lemma AddMember_videos drv now c u db :
  storage.videos (storage.AddMember drv now c u db).2 = storage.videos db.
Proof.
  unfold storage.AddMember. destruct drv; [done|].
  by destruct (decide _).
Qed.

Lemma CreateConversation_videos drv now i c n db :
  storage.videos (storage.CreateConversation drv now i c n db).2
    = storage.videos db.
Proof.
  unfold storage.CreateConversation. destruct drv; [done|].
  by repeat destruct (decide _).
Qed.

Lemma Join_videos env r w :
  storage.videos (db (conversations.Join env r w).2) = storage.videos (db w).
Proof.
  unfold conversations.Join.
  destruct (conversations.jn_body r) as [[code user]|]; [|done].
  destruct (decide _); [done|].
  destruct (storage.GetConversationByInviteCode _ _ _) as [[c|] [e|]];
    try done.
  destruct (storage.AddMember _ _ _ _ _) as [[e|] db1] eqn:Hadd;
    pose proof (AddMember_videos (conversations.jn_addmember_drv env)
                  (conversations.jn_now env) (storage.conv_ID c) user (db w))
      as Hv; rewrite Hadd in Hv; simpl in Hv; [done|].
  by destruct (auth.Create _ _ _ _) as [[token [e|]] s1].
Qed.

Lemma Create_videos env r w :
  storage.videos (db (conversations.Create env r w).2) = storage.videos (db w).
Proof.
  unfold conversations.Create.
  destruct (requireSession _ _) as [|session]; [done|].
  destruct (conversations.cr_name r) as [name|]; [|done].
  destruct (decide _); [done|].
  destruct (conversations.generateID _) as [id [e|]]; [done|].
  destruct (conversations.generateInviteCode _) as [code [e|]]; [done|].
  destruct (storage.CreateConversation _ _ _ _ _ _) as [[e|] db1] eqn:Hc;
    pose proof (CreateConversation_videos (conversations.cr_create_drv env)
                  (conversations.cr_now env) id code name (db w)) as Hv;
    rewrite Hc in Hv; simpl in Hv; [done|].
  destruct (storage.AddMember _ _ _ _ _) as [[e|] db2] eqn:Hadd;
    pose proof (AddMember_videos (conversations.cr_addmember_drv env)
                  (conversations.cr_now env) id (auth.Username session) db1)
      as Hv2; rewrite Hadd in Hv2; simpl in Hv2; simpl; congruence.
Qed.

Lemma conversations_List_world env cookies w :
  (conversations.List env cookies w).2 = w.
Proof.
  unfold conversations.List. destruct (requireSession _ _); [done|].
  by destruct (storage.GetConversationsByUsername _ _ _) as [? []].
Qed.

(** One turn of a worker leaves the database alone and the worker at its
    next attempt, or ends the worker with the one write it makes. *)
Lemma worker_step_cases env k w :
  (∃ w' k',
     worker_step env k w = (w', Some k')
     ∧ worker_id k' = worker_id k ∧ db w' = db w)
  ∨ (∃ w' status,
       worker_step env k w = (w', None)
       ∧ (status = "ready" ∨ status = "error")
       ∧ db w' = (storage.UpdateVideoStatus (t_update_drv env) (worker_id k)
                    status (db w)).2).
Proof.
  unfold worker_step, worker_id. case_bool_decide.
  - destruct (ffmpeg_succeeds _).
    + right. destruct (os.Remove _ _ _) as [rerr fs2].
      destruct (storage.UpdateVideoStatus _ _ _ _) as [uerr db2] eqn:Hupd.
      eexists _, "ready". split_and!; [done | by left |].
      simpl in *. by rewrite Hupd.
    + left. by eexists _, _.
  - right. destruct (storage.UpdateVideoStatus _ _ _ _) as [err db1] eqn:Hupd.
    eexists _, "error". split_and!; [done | by right |].
    simpl. by rewrite Hupd.
Qed.

Lemma worker_run_S env turns k w :
  worker_run env (S turns) k w =
    match worker_step env k w with
    | (w', Some k') => worker_run env turns k' w'
    | (w', None) => w'
    end.
Proof. done. Qed.

(** The turns of a worker, taken together, are [transcode]. *)
Lemma worker_run_transcode_from env t remaining : ∀ attempt w,
  (attempt + remaining = S maxRetries)%nat →
  worker_run env (S remaining) (mkWorker t attempt) w =
    (transcode_from env (task_videoID t) (task_inputPath t)
       (task_outputPath t) remaining attempt w).1.
Proof.
  induction remaining as [|remaining IH]; intros attempt w Hsum.
  - simpl. unfold worker_step. simpl.
    rewrite bool_decide_eq_false_2 by lia.
    by destruct (storage.UpdateVideoStatus _ _ _ _).
  - rewrite worker_run_S. cbn [transcode_from]. unfold worker_step.
    cbn [worker_task worker_attempt].
    rewrite bool_decide_eq_true_2 by lia.
    destruct (ffmpeg_succeeds _).
    + destruct (os.Remove _ _ _).
      by destruct (storage.UpdateVideoStatus _ _ _ _).
    + rewrite IH by lia.
      by destruct (transcode_from _ _ _ _ _ _ _).
Qed.

Lemma worker_run_transcode env t w :
  worker_run env (S maxRetries) (mkWorker t 1) w = (run_task env t w).1.
Proof. by apply worker_run_transcode_from. Qed.

Lemma status_move_update drv id' st db id :
  st = "ready" ∨ st = "error" →
  storage.status_of id' db = Some "pending" →
  status_move (storage.status_of id db)
              (storage.status_of id (storage.UpdateVideoStatus drv id' st db).2).
Proof.
  intros Hst Hpending. destruct drv; [apply status_move_refl|].
  rewrite status_of_UpdateVideoStatus.
  destruct (decide (id = id')) as [->|]; [|apply status_move_refl].
  rewrite Hpending. simpl. by right.
Qed.

Lemma step_step_kind a s : step_kind s (step h a s).
Proof.
  destruct a as [env r|env r|env cookies|env r|env r|i env]; simpl.
  - apply quiet; [apply Join_videos | done].
  - apply quiet; [apply Create_videos | done].
  - apply quiet; [by rewrite conversations_List_world | done].
  - destruct (Upload h env r (world s)) as [[resp w'] started] eqn:HU.
    destruct (decide (http.code resp = http.StatusAccepted)) as [Hc|Hc].
    + destruct (Upload_accepted_inv _ _ _ _ _ _ _ HU Hc)
        as (session & form & fn & content & videoID & _ & _ & _ & _ & _
            & _ & _ & _ & _ & _ & _ & Hfresh & _ & -> & Hdb & _ & _).
      eapply (created _ _
                (storage.mkVideo videoID (conversation_id form)
                   (auth.Username session)
                   (outputPath
                      (filepath.Join (VideosDir h) (conversation_id form))
                      videoID) "pending" (now env)));
        simpl; [exact Hfresh|done| |by rewrite Hdb|done]; done.
    + destruct (Upload_not_accepted _ _ _ _ _ _ _ HU Hc) as (Hdb & _ & ->).
      apply quiet; simpl; [by rewrite Hdb | by rewrite app_nil_r].
  - apply quiet; [by rewrite List_world | done].
  - destruct (workers s !! i) as [k|] eqn:Hk; [|by apply quiet].
    destruct (worker_step_cases env k (world s))
      as [(w' & k' & -> & Hid & Hdb)|(w' & status & -> & Hst & Hdb)].
    + by eapply retried.
    + by eapply finished.
Qed.

Lemma step_kind_status_move s s' id :
  workers_pending s → step_kind s s' →
  status_move (status_in id s) (status_in id s').
Proof.
  intros (_ & _ & Hpending)
    [Hv _|v k Hfresh Hst _ Hv _|i k k' _ _ Hdb _|i k drv st Hk Hst Hdb _];
    unfold status_in.
  - rewrite (status_of_videos id _ _ Hv). apply status_move_refl.
  - replace (db (world s'))
      with (storage.with_videos (storage.videos (db (world s)) ++ [v])
              (db (world s')))
      by (rewrite <-Hv; by destruct (db (world s'))).
    rewrite status_of_app.
    destruct (decide (id ∈ _)) as [Hin|Hni].
    + erewrite status_of_videos; [apply status_move_refl | done].
    + rewrite (status_of_None id (db (world s))) by done.
      destruct (decide _); simpl; done.
  - rewrite Hdb. apply status_move_refl.
  - rewrite Hdb. apply status_move_update; [done|].
    apply Hpending. by eapply list_elem_of_lookup_2.
Qed.

Lemma step_kind_workers_pending s s' :
  workers_pending s → step_kind s s' → workers_pending s'.
Proof.
  intros (Hids & Hws & Hpending)
    [Hv Hw|v k Hfresh Hst Hid Hv Hw|i k k' Hk Hid Hdb Hw
     |i k drv st Hk Hst Hdb Hw];
    unfold workers_pending, status_in in *.
  - rewrite Hv, Hw. split_and!; [done..|].
    intros k Hin. rewrite <-(Hpending k Hin). by apply status_of_videos.
  - rewrite Hv, Hw, !fmap_app. simpl.
    assert (Hworker_ids : ∀ k', k' ∈ workers s →
              worker_id k' ∈ storage.ID <$> storage.videos (db (world s))).
    { intros k' Hin. apply status_of_is_Some. rewrite Hpending; eauto. }
    assert (Hrow : ∀ id, storage.status_of id (db (world s')) =
              if decide (id ∈ storage.ID <$> storage.videos (db (world s)))
              then storage.status_of id (db (world s))
              else if decide (storage.ID v = id) then Some (storage.Status v)
                   else None).
    { intros id.
      replace (db (world s'))
        with (storage.with_videos (storage.videos (db (world s)) ++ [v])
                (db (world s')))
        by (rewrite <-Hv; by destruct (db (world s'))).
      rewrite status_of_app. destruct (decide _); [|done].
      by apply status_of_videos. }
    split_and!.
    + apply NoDup_app. split_and!; [done| |apply NoDup_singleton].
      intros x Hx ->%list_elem_of_singleton. done.
    + apply NoDup_app. split_and!; [done| |apply NoDup_singleton].
      intros x (k' & -> & Hin)%list_elem_of_fmap H%list_elem_of_singleton.
      apply Hfresh. rewrite <-Hid, <-H. by apply Hworker_ids.
    + intros k' [Hin| ->%list_elem_of_singleton]%elem_of_app; rewrite Hrow.
      * destruct (decide (_ ∈ _)) as [|Hni]; [by apply Hpending|].
        exfalso. by apply Hni, Hworker_ids.
      * rewrite Hid. destruct (decide (_ ∈ _)); [done|].
        rewrite decide_True by done. by rewrite Hst.
  - rewrite Hdb, Hw.
    assert (Hsame : worker_id <$> <[i:=k']> (workers s)
                    = worker_id <$> workers s).
    { rewrite list_fmap_insert, Hid. apply list_insert_id.
      by rewrite list_lookup_fmap, Hk. }
    rewrite Hsame. split_and!; [done..|].
    intros k2 Hin.
    assert (worker_id k2 ∈ worker_id <$> workers s)
      as (k3 & -> & Hin3)%list_elem_of_fmap.
    { rewrite <-Hsame. by apply list_elem_of_fmap_2. }
    by apply Hpending.
  - rewrite Hdb, Hw, UpdateVideoStatus_ids.
    pose proof (delete_Permutation _ _ _ Hk) as Hperm.
    assert (Hnd : NoDup (worker_id k :: (worker_id <$> delete i (workers s)))).
    { rewrite <-fmap_cons. by rewrite <-Hperm. }
    apply NoDup_cons in Hnd as [Hnotin Hnd].
    split_and!; [done..|].
    intros k' Hin.
    assert (worker_id k' ≠ worker_id k) as Hne.
    { intros Heq. apply Hnotin. rewrite <-Heq. by apply list_elem_of_fmap_2. }
    destruct drv as [e|].
    + simpl. apply Hpending. by eapply list_elem_of_delete_inv.
    + rewrite status_of_UpdateVideoStatus, decide_False by done.
      apply Hpending. by eapply list_elem_of_delete_inv.
Qed.

Lemma boot_workers_pending w0 :
  NoDup (storage.ID <$> storage.videos (db w0)) → workers_pending (boot w0).
Proof.
  intros Hnd. split_and!; [done | apply NoDup_nil_2 |].
  by intros t ?%elem_of_nil.
Qed.

Lemma run_workers_pending acts : ∀ s,
  workers_pending s → workers_pending (run h acts s).
Proof.
  induction acts as [|a acts IH]; intros s Hs; [done|].
  apply IH. eapply step_kind_workers_pending; [done | apply step_step_kind].
Qed.

Lemma reachable_workers_pending w0 s :
  reachable h w0 s → workers_pending s.
Proof.
  intros [Hnd [acts ->]]. by apply run_workers_pending, boot_workers_pending.
Qed.

Lemma status_move_later a b : status_move a b → status_later a b.
Proof. destruct a, b; simpl; intuition auto. Qed.

Lemma status_later_move a b c :
  status_move a b → status_later b c → status_later a c.
Proof. destruct a, b, c; simpl; intuition (simplify_eq; auto). Qed.

Lemma run_status_later acts : ∀ s id,
  workers_pending s →
  status_later (status_in id s) (status_in id (run h acts s)).
Proof.
  induction acts as [|a acts IH]; intros s id Hs.
  - apply status_move_later, status_move_refl.
  - simpl. eapply status_later_move.
    + apply step_kind_status_move; [done | apply (step_step_kind a)].
    + apply IH. eapply step_kind_workers_pending; [done | apply step_step_kind].
Qed.

(** C8.  In every state the server can reach, for every video id:
    one step leaves the stored status as it is, or creates the row with
    "pending", or moves it from "pending" to "ready" or to "error";
    the row never disappears.  A step that changes the status of a row
    is the last turn of the worker of that video, the status was
    "pending", and afterwards no worker is left for that video.  Over any
    number of steps the status changes at most once: once it has
    changed, it stays. *)
Theorem video_status_forward_only w0 s id :
  reachable h w0 s →
  (∀ a, status_move (status_in id s) (status_in id (step h a s)))
  ∧ (∀ a st,
       status_in id s = Some st →
       status_in id (step h a s) ≠ Some st →
       st = "pending"
       ∧ (∃ i k,
            workers s !! i = Some k ∧ worker_id k = id
            ∧ workers (step h a s) = delete i (workers s))
       ∧ ∀ k', k' ∈ workers (step h a s) → worker_id k' ≠ id)
  ∧ (∀ acts, status_later (status_in id s) (status_in id (run h acts s)))
  ∧ (∀ acts1 acts2 st,
       status_in id s = Some st →
       status_in id (run h acts1 s) ≠ Some st →
       status_in id (run h acts2 (run h acts1 s))
         = status_in id (run h acts1 s)).
Proof.
  intros Hs%reachable_workers_pending. split_and!.
  - intros a. apply step_kind_status_move; [done | apply step_step_kind].
  - intros a st Hst Hchange.
    pose proof (step_step_kind a s) as Hkind.
    pose proof (step_kind_workers_pending _ _ Hs Hkind) as (_ & _ & Hpending').
    pose proof (step_kind_status_move _ _ id Hs Hkind) as Hmove.
    rewrite Hst in Hmove.
    destruct (status_in id (step h a s)) as [st'|] eqn:Hst'; [|done].
    simpl in Hmove. destruct Hmove as [->|[-> Hterminal]]; [done|].
    split; [done|]. split.
    + destruct Hkind
        as [Hv _|v k Hfresh _ _ Hv _|i k k' _ _ Hdb _|i k drv status Hk _ Hdb Hw].
      * exfalso. apply Hchange. rewrite <-Hst', <-Hst.
        by apply status_of_videos.
      * exfalso. apply Hchange. rewrite <-Hst', <-Hst. unfold status_in.
        replace (db (world (step h a s)))
          with (storage.with_videos
                  (storage.videos (db (world s)) ++ [v])
                  (db (world (step h a s))))
          by (rewrite <-Hv; by destruct (db (world (step h a s)))).
        rewrite status_of_app, decide_True.
        { by apply status_of_videos. }
        apply status_of_is_Some. unfold status_in in Hst. by rewrite Hst.
      * exfalso. apply Hchange. rewrite <-Hst', <-Hst. unfold status_in.
        by rewrite Hdb.
      * exists i, k. split_and!; [done| |done].
        destruct (decide (worker_id k = id)) as [|Hne]; [done|].
        exfalso. apply Hchange. rewrite <-Hst', <-Hst. unfold status_in.
        rewrite Hdb. destruct drv; [done|].
        by rewrite status_of_UpdateVideoStatus, decide_False.
    + intros k' Hin Heq. specialize (Hpending' k' Hin).
      rewrite Heq, Hst' in Hpending'.
      destruct Hterminal as [->| ->]; done.
  - intros acts. by apply run_status_later.
  - intros acts1 acts2 st Hst Hchange.
    pose proof (run_status_later acts1 s id Hs) as H1.
    pose proof (run_status_later acts2 (run h acts1 s) id
                  (run_workers_pending acts1 s Hs)) as H2.
    rewrite Hst in H1.
    destruct (status_in id (run h acts1 s)) as [st1|]; [|done].
    destruct (status_in id (run h acts2 (run h acts1 s))) as [st2|]; [|done].
    simpl in *. f_equal.
    destruct H1 as [->|[-> Ht1]]; [done|].
    destruct H2 as [->|[-> _]]; [done|].
    destruct Ht1; done.
Qed.

End status_facts.

(** ** Joining twice *)

Section join_facts.
Import conversations.

Lemma AddMember_conversations drv now c u db :
  storage.conversations (storage.AddMember drv now c u db).2
    = storage.conversations db.
Proof.
  unfold storage.AddMember. destruct drv; [done|]. by destruct (decide _).
Qed.

(** What a join answered with success did. *)
Lemma Join_ok_inv env r w :
  http.code (Join env r w).1 = http.StatusOK →
  ∃ inviteCode username c,
    jn_body r = Some (inviteCode, username)
    ∧ ¬ (inviteCode = EmptyString ∨ username = EmptyString)
    ∧ storage.GetConversationByInviteCode None inviteCode (db w)
      = (Some c, None)
    ∧ db (Join env r w).2
      = (storage.AddMember None (jn_now env) (storage.conv_ID c) username
           (db w)).2.
Proof.
  unfold Join.
  destruct (jn_body r) as [[inviteCode username]|] eqn:Hbody; [|done].
  destruct (decide _) as [|Hne]; [done|].
  destruct (jn_lookup_drv env) as [e|]; [done|].
  destruct (storage.GetConversationByInviteCode _ _ _) as [[c|] [e|]] eqn:Hget;
    try done.
  destruct (jn_addmember_drv env) as [e|]; [done|].
  destruct (storage.AddMember _ _ _ _ _) as [[e|] db1] eqn:Hadd; [done|].
  destruct (auth.Create _ _ _ _) as [[token [e|]] s1]; [done|].
  intros _. exists inviteCode, username, c.
  split_and!; [done..|]. by rewrite Hadd.
Qed.

(** After a join that was answered with success, the same invite code and
    user name can be sent again: table [members] stays as it is, and the
    answer is success again when the driver and the random source work. *)
Lemma Join_again env1 env2 r w :
  http.code (Join env1 r w).1 = http.StatusOK →
  storage.members (db (Join env2 r (Join env1 r w).2).2)
    = storage.members (db (Join env1 r w).2)
  ∧ (jn_lookup_drv env2 = None → jn_addmember_drv env2 = None →
     (∀ e, jn_token_source env2 ≠ rand.Broken e) →
     http.code (Join env2 r (Join env1 r w).2).1 = http.StatusOK).
Proof.
  intros (inviteCode & username & c & Hbody & Hne & Hget & Hdb)%Join_ok_inv.
  revert Hdb. generalize (Join env1 r w).2. intros w1 Hdb.
  assert (Hmember : storage.member_of (storage.conv_ID c) username (db w1)).
  { rewrite Hdb. apply AddMember_member_of. }
  assert (Hc : storage.GetConversationByInviteCode None inviteCode (db w1)
               = (Some c, None)).
  { rewrite <-Hget. unfold storage.GetConversationByInviteCode.
    by rewrite Hdb, AddMember_conversations. }
  unfold Join. rewrite Hbody, decide_False by done.
  split.
  - destruct (jn_lookup_drv env2) as [e|]; [done|]. rewrite Hc.
    destruct (jn_addmember_drv env2) as [e|]; [done|].
    rewrite AddMember_present by done.
    by destruct (auth.Create _ _ _ _) as [[token2 [e|]] s2].
  - intros -> -> Hsrc. rewrite Hc, AddMember_present by done.
    unfold auth.Create, auth.generateToken.
    destruct (jn_token_source env2) as [e|f]; [by destruct (Hsrc e)|done].
Qed.

End join_facts.

(** ** The scenario, run *)

(** Alice uploads clip.mp4 and the conversion works: the listing shows her
    video as "ready", the canonical file is there, the original is gone. *)
Example upload_then_ready :
  let s1 := step scenario.handler
              (ActUpload scenario.calm
                 (scenario.upload_of "tok-alice" "clip.mp4"))
              (boot scenario.joined) in
  let s2 := step scenario.handler (ActWorker 0 scenario.converter_works) s1 in
  status_in scenario.video_id s1 = Some "pending"
  ∧ os.files (fs (world s1)) !! scenario.original = Some scenario.clip
  ∧ (videos.List scenario.handler (videos.mkListEnv None None)
       (videos.mkListRequest [("waffle_session", "tok-alice")] "conv-1")
       (world s2)).1
    = http.mkResponse http.StatusOK
        (http.VideoList
           [http.mkVideoItem scenario.video_id "alice" "ready" 5]) None
  ∧ os.files (fs (world s2)) !! scenario.canonical = Some scenario.converted
  ∧ os.files (fs (world s2)) !! scenario.original = None.
Proof. vm_compute. done. Qed.

(** A file name whose extension is spelt with the Kelvin sign: with
    tables that fold it to k the upload is accepted and the original is
    stored under the extension in lower case. *)
Example upload_kelvin_sign :
  let '(resp, w', started) :=
    videos.Upload scenario.handler scenario.calm_kelvin
      (scenario.upload_of "tok-alice" "clip.mKv") scenario.joined in
  resp = http.mkResponse http.StatusAccepted
           (http.Object [("status", "pending");
                         ("video_id", scenario.video_id)]) None
  ∧ os.files (fs w') !!
      "videos/conv-1/original_abababababababababababababababab.mkv"
    = Some scenario.clip
  ∧ storage.Filename <$> storage.videos (db w')
    = ["videos/conv-1/abababababababababababababababab.mp4"].
Proof. vm_compute. done. Qed.

Lemma Upload_accepted_witness :
  ∃ w',
    videos.Upload scenario.handler scenario.calm
      (scenario.upload_of "tok-alice" "clip.mp4") scenario.joined
    = (http.mkResponse http.StatusAccepted
         (http.Object [("status", "pending");
                       ("video_id", scenario.video_id)]) None,
       w',
       Some (videos.mkTask scenario.video_id scenario.original
               scenario.canonical))
    ∧ storage.status_of scenario.video_id (db w') = Some "pending"
    ∧ os.files (fs w') !! scenario.original = Some scenario.clip.
Proof.
  destruct (proj1 (Upload_accepted_record_and_original scenario.handler
                     scenario.calm
                     (scenario.upload_of "tok-alice" "clip.mp4")
                     scenario.joined)
              (auth.mkSession "alice")
              (videos.mkForm "conv-1" (Some ("clip.mp4", scenario.clip)))
              "clip.mp4" scenario.clip scenario.video_id)
    as (w' & HU & _ & Hstatus & _ & Horiginal & _);
    [reflexivity | reflexivity | discriminate | reflexivity
    | apply (bool_decide_unpack _); vm_compute; exact I
    | reflexivity | reflexivity | reflexivity | reflexivity | reflexivity
    | reflexivity | reflexivity
    | apply (bool_decide_unpack _); vm_compute; exact I |].
  exists w'. split_and!; [exact HU | exact Hstatus | exact Horiginal].
Defined.

Lemma Upload_disallowed_extension_witness :
  videos.Upload scenario.handler scenario.calm
    (scenario.upload_of "tok-alice" "clip.exe") scenario.joined
  = (http.Error "unsupported file type: .exe" http.StatusBadRequest,
     scenario.joined, None).
Proof.
  destruct (Upload_disallowed_extension scenario.handler scenario.calm
              (scenario.upload_of "tok-alice" "clip.exe") scenario.joined
              (videos.mkForm "conv-1" (Some ("clip.exe", scenario.clip)))
              "clip.exe" scenario.clip)
    as (resp & -> & _ & _ & _ & Hgate);
    [reflexivity | reflexivity | vm_compute; reflexivity |].
  rewrite (Hgate (auth.mkSession "alice")); [reflexivity | | | |];
    vm_compute; first [reflexivity | discriminate].
Defined.

(** The claim as it was written, at alice's upload of clip.exe while the
    database is closed: the extension is not allowed, nothing is
    changed, and the answer is the internal error, which is no client
    error. *)
Lemma Upload_disallowed_extension_counterexample :
  videos.allowedExtensions
    (strings_pkg.ToLower (videos.unicode_lower scenario.db_down)
       (filepath.Ext "clip.exe")) = false
  ∧ videos.Upload scenario.handler scenario.db_down
      (scenario.upload_of "tok-alice" "clip.exe") scenario.joined
    = (videos.internal_error, scenario.joined, None)
  ∧ ¬ http.client_error videos.internal_error.
Proof.
  split_and!; [reflexivity | reflexivity |].
  unfold http.client_error. vm_compute. intros [_ Hlt]. discriminate Hlt.
Qed.


Lemma transcode_all_attempts_fail_witness :
  ∃ w',
    videos.transcode scenario.converter_broken scenario.video_id
      scenario.original scenario.canonical scenario.uploaded
    = (w', [videos.EvConvert 1 scenario.original scenario.canonical false;
            videos.EvSleep videos.retryDelay;
            videos.EvConvert 2 scenario.original scenario.canonical false;
            videos.EvSleep videos.retryDelay;
            videos.EvConvert 3 scenario.original scenario.canonical false;
            videos.EvUpdateStatus scenario.video_id "error" None])
    ∧ os.files (fs w') !! scenario.original = Some scenario.clip
    ∧ storage.status_of scenario.video_id (db w') = Some "error".
Proof.
  destruct (transcode_all_attempts_fail scenario.converter_broken
              scenario.video_id scenario.original scenario.canonical
              scenario.uploaded)
    as (w' & err & Hrun & _ & Hfile & Hstatus);
    [intros attempt _; reflexivity | discriminate |].
  destruct (Hstatus eq_refl) as [-> Hrow]. exists w'.
  split_and!; [exact Hrun | rewrite Hfile; vm_compute; reflexivity |].
  apply Hrow. vm_compute. by eexists.
Defined.

(** C2: the claim fails when the removal of the original is refused: the
    first attempt succeeds, the canonical file is written and the status
    becomes "ready", and the original is still on disk. *)
Lemma transcode_removal_refused_counterexample :
  videos.ffmpeg_succeeds (videos.ffmpeg scenario.removal_refused 1) = true
  ∧ os.files (fs scenario.original_kept) !! scenario.canonical
    = Some scenario.converted
  ∧ storage.status_of scenario.video_id (db scenario.original_kept)
    = Some "ready"
  ∧ os.files (fs scenario.original_kept) !! scenario.original
    = Some scenario.clip.
Proof. vm_compute. done. Qed.

Lemma transcode_first_success_witness :
  ∃ w' rerr uerr,
    videos.transcode scenario.converter_works_third_time scenario.video_id
      scenario.original scenario.canonical scenario.uploaded
    = (w', videos.failed_attempts scenario.original scenario.canonical 2 ++
           [videos.EvConvert 3 scenario.original scenario.canonical true;
            videos.EvRemove scenario.original rerr;
            videos.EvUpdateStatus scenario.video_id "ready" uerr])
    ∧ os.files (fs w') !! scenario.canonical = Some scenario.converted
    ∧ os.files (fs w') !! scenario.original = None.
Proof.
  destruct (transcode_first_success scenario.converter_works_third_time
              scenario.video_id scenario.original scenario.canonical
              scenario.uploaded 3 scenario.converted)
    as (w' & rerr & uerr & Hrun & Hout & Hin & _).
  - unfold videos.maxRetries. lia.
  - intros j Hj. assert (j = 1 ∨ j = 2)%nat as [-> | ->] by lia; reflexivity.
  - reflexivity.
  - discriminate.
  - exists w', rerr, uerr. split_and!; [exact Hrun | exact Hout | exact Hin].
Defined.

Lemma video_status_forward_only_witness :
  status_later
    (status_in scenario.video_id scenario.server_uploaded)
    (status_in scenario.video_id
       (run scenario.handler [ActWorker 0 scenario.converter_works]
          scenario.server_uploaded)).
Proof.
  apply (video_status_forward_only scenario.handler scenario.joined
           scenario.server_uploaded scenario.video_id).
  split; [apply NoDup_nil_2 | by eexists].
Defined.

(** ** Identifiers, invite codes and tokens *)


Lemma generateToken_hex f :
  ∃ token,
    auth.generateToken (rand.Bytes f) = (token, None)
    ∧ String.length token = 64%nat
    ∧ all_chars is_hex_digit token = true.
Proof.
  eexists. split; [reflexivity|].
  by rewrite EncodeToString_length, EncodeToString_hex, length_fmap, length_seq.
Qed.

(** Every identifier the server makes up is in lower-case hexadecimal. *)
Theorem generated_identifiers_shape f :
  (∃ id, videos.generateID (rand.Bytes f) = (id, None)
         ∧ String.length id = 32%nat ∧ all_chars is_hex_digit id = true)
  ∧ (∃ id, conversations.generateID (rand.Bytes f) = (id, None)
           ∧ String.length id = 32%nat ∧ all_chars is_hex_digit id = true)
  ∧ (∃ code, conversations.generateInviteCode (rand.Bytes f) = (code, None)
             ∧ String.length code = 12%nat
             ∧ all_chars is_hex_digit code = true)
  ∧ (∃ token, auth.generateToken (rand.Bytes f) = (token, None)
              ∧ String.length token = 64%nat
              ∧ all_chars is_hex_digit token = true).
Proof.
  split_and!; eexists; (split; [reflexivity|]);
    rewrite EncodeToString_length, EncodeToString_hex, length_fmap, length_seq;
    done.
Qed.

Lemma fmap_seq_inj (f g : nat → Byte.byte) n :
  f <$> seq 0 n = g <$> seq 0 n → ∀ i, (i < n)%nat → f i = g i.
Proof.
  intros Heq i Hi.
  assert ((f <$> seq 0 n) !! i = Some (f i)) as Hf.
  { rewrite list_lookup_fmap, lookup_seq_lt by done. done. }
  assert ((g <$> seq 0 n) !! i = Some (g i)) as Hg.
  { rewrite list_lookup_fmap, lookup_seq_lt by done. done. }
  rewrite Heq in Hf. congruence.
Qed.

(** Two identifiers, or two session tokens, are the same only when the
    random source gave the same bytes: the encoding loses nothing. *)
Theorem generated_identifiers_differ f g :
  ((∃ i, (i < 16)%nat ∧ f i ≠ g i) →
   (videos.generateID (rand.Bytes f)).1 ≠ (videos.generateID (rand.Bytes g)).1)
  ∧ ((∃ i, (i < 6)%nat ∧ f i ≠ g i) →
     (conversations.generateInviteCode (rand.Bytes f)).1
       ≠ (conversations.generateInviteCode (rand.Bytes g)).1)
  ∧ ((∃ i, (i < 32)%nat ∧ f i ≠ g i) →
     (auth.generateToken (rand.Bytes f)).1
       ≠ (auth.generateToken (rand.Bytes g)).1).
Proof.
  split_and!; intros (i & Hi & Hne) Heq;
    unfold videos.generateID, conversations.generateInviteCode,
      rand.generateHex, auth.generateToken in Heq;
    cbn [fst] in Heq; apply EncodeToString_inj in Heq;
    by apply Hne, (fmap_seq_inj f g _ Heq).
Qed.

(** ** The check of the extension *)

Section extension_facts.
Import strings_pkg filepath.

Lemma string_of_list_ascii_app l1 l2 :
  String.string_of_list_ascii (l1 ++ l2) =
    String.string_of_list_ascii l1 +:+ String.string_of_list_ascii l2.
Proof. induction l1 as [|c l1 IH]; simpl; [done | by rewrite IH]. Qed.

Lemma list_ascii_of_string_app s1 s2 :
  String.list_ascii_of_string (s1 +:+ s2) =
    String.list_ascii_of_string s1 ++ String.list_ascii_of_string s2.
Proof. induction s1 as [|c s1 IH]; simpl; [done | by rewrite IH]. Qed.

Lemma ext_loop_suffix rev_path : ∀ seen,
  ∃ pre,
    reverse rev_path ++ String.list_ascii_of_string seen =
      pre ++ String.list_ascii_of_string (ext_loop rev_path seen).
Proof.
  induction rev_path as [|c rest IH]; intros seen; simpl.
  - exists (String.list_ascii_of_string seen). by rewrite app_nil_r.
  - rewrite reverse_cons, <-app_assoc. simpl.
    destruct (Ascii.eqb c "/").
    { eexists. by rewrite app_nil_r. }
    destruct (Ascii.eqb c ".").
    { by exists (reverse rest). }
    apply (IH (String c seen)).
Qed.

(** [Ext] gives the end of the path. *)
Lemma Ext_suffix path : ∃ base, path = base +:+ Ext path.
Proof.
  destruct (ext_loop_suffix (reverse (String.list_ascii_of_string path))
              EmptyString) as [pre Hpre].
  cbn [String.list_ascii_of_string] in Hpre.
  rewrite reverse_involutive in Hpre. rewrite app_nil_r in Hpre.
  exists (String.string_of_list_ascii pre). unfold Ext.
  set (e := ext_loop _ _) in *.
  rewrite <-(String.string_of_list_ascii_of_string path) at 1.
  rewrite Hpre, string_of_list_ascii_app.
  by rewrite String.string_of_list_ascii_of_string.
Qed.

Lemma lower_ascii_dot c : lower_ascii c = "."%char → c = "."%char.
Proof.
  unfold lower_ascii. destruct (_ && _) eqn:Hup; [|done].
  apply andb_true_iff in Hup as [H1%N.leb_le H2%N.leb_le].
  intros H%(f_equal N_of_ascii). rewrite N_ascii_embedding in H by lia.
  simpl in H. lia.
Qed.

Lemma lower_ascii_plain c x :
  lower_ascii c = x → x ≠ "."%char → x ≠ "/"%char →
  Ascii.eqb c "/" = false ∧ Ascii.eqb c "." = false.
Proof.
  intros Hx Hdot Hsep. split; apply Ascii.eqb_neq; intros ->; by subst.
Qed.

(** An extension of a dot and three plain characters at the end of a name
    is what [Ext] finds. *)
Lemma Ext_app_allowed base e :
  lower_bytes e ∈ [".mp4"; ".mov"; ".avi"; ".mkv"] → Ext (base +:+ e) = e.
Proof.
  intros Hin.
  destruct e as [|c0 [|c1 [|c2 [|c3 [|c4 e]]]]];
    try (repeat (apply elem_of_cons in Hin as [Hin|Hin]; [done|]);
         by apply elem_of_nil in Hin).
  assert (c0 = "."%char
          ∧ (Ascii.eqb c1 "/" = false ∧ Ascii.eqb c1 "." = false)
          ∧ (Ascii.eqb c2 "/" = false ∧ Ascii.eqb c2 "." = false)
          ∧ (Ascii.eqb c3 "/" = false ∧ Ascii.eqb c3 "." = false))
    as (-> & [H1 H1'] & [H2 H2'] & [H3 H3']).
  { simpl in Hin.
    repeat (apply elem_of_cons in Hin as [Hin|Hin];
            [injection Hin as H0 H1 H2 H3;
             split; [by apply lower_ascii_dot|];
             split; [by apply (lower_ascii_plain _ _ H1)|];
             split; [by apply (lower_ascii_plain _ _ H2)
                    |by apply (lower_ascii_plain _ _ H3)] |]).
    by apply elem_of_nil in Hin. }
  unfold Ext. rewrite list_ascii_of_string_app, reverse_app. simpl.
  by rewrite H3, H3', H2, H2', H1, H1'.
Qed.

Lemma lower_ascii_ascii c :
  (N_of_ascii (lower_ascii c) <? 128)%N = true → (N_of_ascii c <? 128)%N = true.
Proof.
  unfold lower_ascii. destruct (_ && _) eqn:Hup; [|done].
  apply andb_true_iff in Hup as [H1%N.leb_le H2%N.leb_le].
  intros _. apply N.ltb_lt. lia.
Qed.

Lemma lower_bytes_ascii s : isASCII (lower_bytes s) = true → isASCII s = true.
Proof.
  induction s as [|c s IH]; [done|]. simpl.
  intros [Hc Hs]%andb_prop. by rewrite (lower_ascii_ascii c Hc), IH.
Qed.

Lemma isASCII_app s1 s2 : isASCII (s1 +:+ s2) = isASCII s1 && isASCII s2.
Proof.
  induction s1 as [|c s1 IH]; [done|].
  rewrite append_String. simpl. by rewrite IH, andb_assoc.
Qed.

Lemma all_chars_isASCII s : all_chars is_ascii_char s = isASCII s.
Proof. induction s as [|c s IH]; [done|]. simpl. by rewrite IH. Qed.

(** On a string of ASCII bytes the tables are not looked at. *)
Lemma ToLower_ascii unicode_map s :
  isASCII s = true → ToLower unicode_map s = lower_bytes s.
Proof. unfold ToLower. by intros ->. Qed.

(** The check of the extension in [Upload] lets through every file name
    that ends in .mp4, .mov, .avi or .mkv, in any mix of upper and lower
    case of the letters A to Z, whatever the Unicode tables; and a name
    in ASCII that it lets through ends so.  (The converse is said of
    names in ASCII only: outside ASCII, Go's [ToLower] also folds the
    Kelvin sign to k.) *)
Theorem extension_check_accepts unicode_map header_Filename :
  (∀ base e,
     header_Filename = base +:+ e →
     lower_bytes e ∈ [".mp4"; ".mov"; ".avi"; ".mkv"] →
     videos.allowedExtensions (ToLower unicode_map (Ext header_Filename))
     = true)
  ∧ (all_chars is_ascii_char header_Filename = true →
     videos.allowedExtensions (ToLower unicode_map (Ext header_Filename))
     = true →
     ∃ base e,
       header_Filename = base +:+ e
       ∧ lower_bytes e ∈ [".mp4"; ".mov"; ".avi"; ".mkv"]).
Proof.
  unfold videos.allowedExtensions. split.
  - intros base e -> Hin. rewrite bool_decide_eq_true.
    rewrite Ext_app_allowed by done. rewrite ToLower_ascii; [done|].
    apply lower_bytes_ascii.
    repeat (apply elem_of_cons in Hin as [->|Hin]; [done|]).
    by apply elem_of_nil in Hin.
  - intros Hascii Hin%bool_decide_eq_true.
    destruct (Ext_suffix header_Filename) as [base Hbase].
    exists base, (Ext header_Filename). split; [done|].
    rewrite ToLower_ascii in Hin; [done|].
    rewrite all_chars_isASCII, Hbase, isASCII_app in Hascii.
    by apply andb_prop in Hascii as [_ ?].
Qed.

End extension_facts.

(** ** More on the metadata store *)

Section more_storage_facts.
Import storage.

Lemma member_row_key c u (ms : list Member) :
  Exists (is_member_row c u) ms ↔ (c, u) ∈ member_key <$> ms.
Proof.
  rewrite Exists_exists, list_elem_of_fmap. unfold is_member_row, member_key.
  split.
  - intros (m & Hin & <- & <-). by exists m.
  - intros (m & [= -> ->] & Hin). by exists m.
Qed.

Lemma NoDup_snoc {A} (l : list A) x : NoDup l → x ∉ l → NoDup (l ++ [x]).
Proof.
  intros Hl Hx. apply NoDup_app. split_and!; [done| |apply NoDup_singleton].
  by intros y Hy ->%list_elem_of_singleton.
Qed.

Lemma CreateVideo_schema drv now id c u f db :
  schema_ok db → schema_ok (CreateVideo drv now id c u f db).2.
Proof.
  intros (Hv & Hc & Hi & Hm). unfold CreateVideo.
  destruct drv; [done|]. destruct (decide _) as [|Hfresh]; [done|].
  split_and!; simpl; try done.
  rewrite fmap_app. by apply NoDup_snoc.
Qed.

Lemma UpdateVideoStatus_schema drv id status db :
  schema_ok db → schema_ok (UpdateVideoStatus drv id status db).2.
Proof.
  intros (Hv & Hc & Hi & Hm). split_and!; try by destruct drv.
  by rewrite UpdateVideoStatus_ids.
Qed.

Lemma CreateConversation_schema drv now id code name db :
  schema_ok db → schema_ok (CreateConversation drv now id code name db).2.
Proof.
  intros (Hv & Hc & Hi & Hm). unfold CreateConversation.
  destruct drv; [done|].
  destruct (decide _) as [|Hid]; [done|].
  destruct (decide _) as [|Hcode]; [done|].
  split_and!; simpl; try done; rewrite fmap_app; by apply NoDup_snoc.
Qed.

Lemma AddMember_schema drv now c u db :
  schema_ok db → schema_ok (AddMember drv now c u db).2.
Proof.
  intros (Hv & Hc & Hi & Hm). unfold AddMember.
  destruct drv; [done|]. destruct (decide _) as [|Hnew]; [done|].
  split_and!; simpl; try done.
  rewrite fmap_app. apply NoDup_snoc; [done|].
  intros Hin. by apply Hnew, member_row_key.
Qed.

(** Whatever the driver answers, the four writing operations keep the
    primary keys of the three tables and the uniqueness of invite codes. *)
Theorem storage_keeps_schema db :
  schema_ok db →
  (∀ drv now id c u f, schema_ok (CreateVideo drv now id c u f db).2)
  ∧ (∀ drv id status, schema_ok (UpdateVideoStatus drv id status db).2)
  ∧ (∀ drv now id code name,
       schema_ok (CreateConversation drv now id code name db).2)
  ∧ (∀ drv now c u, schema_ok (AddMember drv now c u db).2).
Proof.
  intros Hdb. split_and!; intros.
  - by apply CreateVideo_schema.
  - by apply UpdateVideoStatus_schema.
  - by apply CreateConversation_schema.
  - by apply AddMember_schema.
Qed.

Lemma insert_desc_elem v x l : x ∈ insert_desc v l ↔ x = v ∨ x ∈ l.
Proof. by rewrite insert_desc_Permutation, elem_of_cons. Qed.

(** What a new last row does to the listings. *)
Lemma listed_after_append v db db' :
  videos db' = videos db ++ [v] →
  v ∈ (GetVideosByConversation None (ConversationID v) db').1
  ∧ ∀ c', c' ≠ ConversationID v →
      GetVideosByConversation None c' db'
      = GetVideosByConversation None c' db.
Proof.
  intros Hv. unfold GetVideosByConversation. rewrite Hv. simpl. split.
  - rewrite order_by_Permutation, filter_app, filter_cons.
    rewrite decide_True by done. rewrite elem_of_app. right.
    apply elem_of_cons. by left.
  - intros c' Hne. f_equal. rewrite filter_app, filter_cons.
    rewrite decide_False by congruence.
    by rewrite filter_nil, app_nil_r.
Qed.

(** A row that was created is listed for its conversation, with status
    "pending" and the time of creation; the listing of any other
    conversation is as before; and the creation succeeds exactly when the
    id is new. *)
Theorem CreateVideo_then_listed now id c u f db :
  ((CreateVideo None now id c u f db).1 = None ↔ id ∉ (ID <$> videos db))
  ∧ (id ∉ (ID <$> videos db) →
     mkVideo id c u f "pending" now
       ∈ (GetVideosByConversation None c
            (CreateVideo None now id c u f db).2).1
     ∧ ∀ c', c' ≠ c →
         GetVideosByConversation None c' (CreateVideo None now id c u f db).2
         = GetVideosByConversation None c' db)
  ∧ (id ∈ (ID <$> videos db) →
     (CreateVideo None now id c u f db).2 = db).
Proof.
  unfold CreateVideo. destruct (decide _) as [Hin|Hfresh]; cbn [fst snd].
  - split_and!; [split; done | done | done].
  - split_and!; [split; done | | done].
    intros _.
    by apply (listed_after_append (mkVideo id c u f "pending" now) db).
Qed.

Lemma set_status_same v status : same_but_status v (set_status status v).
Proof. by repeat split. Qed.

Lemma UpdateVideoStatus_rows drv id status db :
  Forall2
    (λ v v', same_but_status v v'
             ∧ (ID v ≠ id → Status v' = Status v)
             ∧ (Status v' = Status v ∨ (ID v = id ∧ Status v' = status)))
    (videos db) (videos (UpdateVideoStatus drv id status db).2).
Proof.
  destruct drv as [e|]; simpl.
  - apply Forall2_same_length_lookup_2; [done|].
    intros i v v' Hv Hv'. assert (v' = v) as -> by congruence.
    split; [by repeat split|]. split; [done | by left].
  - apply Forall2_fmap_r, Forall_Forall2_diag.
    apply Forall_forall. intros v _. simpl.
    destruct (decide (ID v = id)) as [Hid|Hid].
    + split; [apply set_status_same|]. split; [done | by right].
    + split; [by repeat split|]. split; [done | by left].
Qed.

Lemma UpdateVideoStatus_other_tables drv id status db :
  conversations (UpdateVideoStatus drv id status db).2 = conversations db
  ∧ members (UpdateVideoStatus drv id status db).2 = members db.
Proof. by destruct drv. Qed.


(** An update of the status changes nothing but the status, and that only
    in rows of the id given: the tables keep their rows, in their order,
    every row keeps its id, conversation, uploader, file name and time;
    rows of other ids keep their status too. *)
Theorem UpdateVideoStatus_only_status drv id status db :
  conversations (UpdateVideoStatus drv id status db).2 = conversations db
  ∧ members (UpdateVideoStatus drv id status db).2 = members db
  ∧ Forall2
      (λ v v', same_but_status v v'
               ∧ (ID v ≠ id → Status v' = Status v)
               ∧ (Status v' = Status v ∨ (ID v = id ∧ Status v' = status)))
      (videos db) (videos (UpdateVideoStatus drv id status db).2).
Proof.
  destruct (UpdateVideoStatus_other_tables drv id status db) as [Hc Hm].
  split_and!; [done | done | apply UpdateVideoStatus_rows].
Qed.

(** Of two updates of one id the later one counts, and updates of two ids
    can be made in either order. *)
Theorem UpdateVideoStatus_compose id1 id2 s1 s2 db :
  (UpdateVideoStatus None id1 s2 (UpdateVideoStatus None id1 s1 db).2).2
    = (UpdateVideoStatus None id1 s2 db).2
  ∧ (id1 ≠ id2 →
     (UpdateVideoStatus None id2 s2 (UpdateVideoStatus None id1 s1 db).2).2
     = (UpdateVideoStatus None id1 s1 (UpdateVideoStatus None id2 s2 db).2).2).
Proof.
  unfold UpdateVideoStatus, with_videos. simpl. split.
  - f_equal. rewrite <-list_fmap_compose. apply list_fmap_ext.
    intros i v _. simpl. destruct (decide (ID v = id1)) as [H|H].
    2:{ by rewrite decide_False by done. }
    simpl. by rewrite decide_True by done.
  - intros Hne. f_equal. rewrite <-!list_fmap_compose. apply list_fmap_ext.
    intros i v _. simpl.
    destruct (decide (ID v = id1)) as [H1|H1];
      destruct (decide (ID v = id2)) as [H2|H2]; simpl;
      repeat (first [rewrite decide_True by done
                    |rewrite decide_False by done]); try done.
    congruence.
Qed.

Lemma filter_nil_not_elem {A} (P : A → Prop) `{!∀ x, Decision (P x)} l :
  filter P l = [] ↔ ∀ x, x ∈ l → ¬ P x.
Proof.
  split.
  - intros Hnil x Hin HP.
    assert (x ∈ filter P l) as Hx by by apply list_elem_of_filter.
    rewrite Hnil in Hx. by apply elem_of_nil in Hx.
  - intros Hall. destruct (filter P l) as [|x l'] eqn:Hf; [done|].
    assert (x ∈ filter P l) as [HP Hin]%list_elem_of_filter
      by (rewrite Hf; by left).
    by destruct (Hall x Hin).
Qed.

Lemma GetConversationByInviteCode_unknown code db :
  code ∉ (conv_InviteCode <$> conversations db) →
  GetConversationByInviteCode None code db = (None, None).
Proof.
  intros Hni. unfold GetConversationByInviteCode. f_equal.
  apply head_None, filter_nil_not_elem.
  intros c Hin Hcode. apply Hni. rewrite <-Hcode.
  by apply list_elem_of_fmap_2.
Qed.

(** The conversation found for an invite code is a row with that code;
    none is found, without an error, exactly when no row has the code. *)
Theorem GetConversationByInviteCode_found code db :
  (∀ c, GetConversationByInviteCode None code db = (Some c, None) →
        c ∈ conversations db ∧ conv_InviteCode c = code)
  ∧ (GetConversationByInviteCode None code db = (None, None)
     ↔ code ∉ (conv_InviteCode <$> conversations db)).
Proof.
  unfold GetConversationByInviteCode. split.
  - intros c [= Hhead]. apply head_Some_elem_of in Hhead.
    apply list_elem_of_filter in Hhead as [? ?]. done.
  - split.
    + intros [= Hhead%head_None]. intros (c & -> & Hin)%list_elem_of_fmap.
      by eapply (filter_nil_not_elem _ _).
    + apply GetConversationByInviteCode_unknown.
Qed.

(** A conversation is created exactly when its id and its invite code are
    both new; it is then found by its invite code, and what is found for
    any other code is as before.  When it is not created the database
    stays as it was. *)
Theorem CreateConversation_then_found now id code name db :
  ((CreateConversation None now id code name db).1 = None
   ↔ (id ∉ conv_ID <$> conversations db)
     ∧ (code ∉ conv_InviteCode <$> conversations db))
  ∧ ((CreateConversation None now id code name db).1 = None →
     GetConversationByInviteCode None code
       (CreateConversation None now id code name db).2
       = (Some (mkConversation id code name now), None)
     ∧ ∀ code', code' ≠ code →
         GetConversationByInviteCode None code'
           (CreateConversation None now id code name db).2
         = GetConversationByInviteCode None code' db)
  ∧ ((CreateConversation None now id code name db).1 ≠ None →
     (CreateConversation None now id code name db).2 = db).
Proof.
  unfold CreateConversation.
  destruct (decide (id ∈ _)) as [Hid|Hid]; simpl.
  { split_and!; [split; [done | by intros [? ?]] | done | done]. }
  destruct (decide (code ∈ _)) as [Hcode|Hcode]; simpl.
  { split_and!; [split; [done | by intros [? ?]] | done | done]. }
  split_and!; [done | | done].
  intros _. unfold GetConversationByInviteCode. simpl. split.
  - f_equal. rewrite filter_app.
    assert (filter (λ c, conv_InviteCode c = code) (conversations db) = [])
      as ->.
    { apply filter_nil_not_elem. intros c Hin Hc. apply Hcode.
      rewrite <-Hc. by apply list_elem_of_fmap_2. }
    rewrite filter_cons. by rewrite decide_True.
  - intros code' Hne. f_equal. rewrite filter_app, filter_cons.
    rewrite decide_False by (simpl; congruence).
    by rewrite filter_nil, app_nil_r.
Qed.

(** After [AddMember] the user is a member of the conversation, and the
    answer of [IsMember] for every other pair of conversation and user is
    as before. *)
Theorem AddMember_then_IsMember now c u db :
  IsMember None c u (AddMember None now c u db).2 = (true, None)
  ∧ ∀ c' u', (c', u') ≠ (c, u) →
      IsMember None c' u' (AddMember None now c u db).2
      = IsMember None c' u' db.
Proof.
  split.
  - rewrite IsMember_spec. f_equal. apply bool_decide_eq_true.
    apply AddMember_member_of.
  - intros c' u' Hne. rewrite !IsMember_spec. f_equal.
    apply bool_decide_ext. unfold AddMember, member_of.
    destruct (decide _); [done|]. simpl. rewrite Exists_app, Exists_cons.
    rewrite Exists_nil. unfold is_member_row at 2. simpl.
    split; [|by left]. intros [?|[[-> ->]|[]]]; done.
Qed.

Lemma insert_conv_desc_Permutation c l : insert_conv_desc c l ≡ₚ c :: l.
Proof.
  induction l as [|x l IH]; simpl; [done|].
  destruct (conv_CreatedAt x <=? conv_CreatedAt c); [done|].
  rewrite IH. apply Permutation_swap.
Qed.

Lemma foldr_insert_conv_Permutation l : foldr insert_conv_desc [] l ≡ₚ l.
Proof.
  induction l as [|x l IH]; simpl; [done|].
  by rewrite insert_conv_desc_Permutation, IH.
Qed.

Lemma insert_conv_desc_sorted c l :
  StronglySorted newest_conversation_first l →
  StronglySorted newest_conversation_first (insert_conv_desc c l).
Proof.
  induction 1 as [|x l Hs IH Hall]; simpl.
  - repeat constructor.
  - destruct (Z.leb_spec (conv_CreatedAt x) (conv_CreatedAt c)) as [Hle|Hlt].
    + constructor; [by constructor|].
      constructor; [done|].
      eapply Forall_impl; [exact Hall|].
      unfold newest_conversation_first. intros y Hy. lia.
    + constructor; [done|].
      rewrite insert_conv_desc_Permutation.
      constructor; [unfold newest_conversation_first; lia | done].
Qed.

Lemma NoDup_fmap_eq {A B} (f : A → B) (l : list A) x y :
  NoDup (f <$> l) → x ∈ l → y ∈ l → f x = f y → x = y.
Proof.
  induction l as [|z l IH]; [by intros _ ?%elem_of_nil|].
  rewrite fmap_cons, NoDup_cons. intros [Hz Hl].
  intros [->|Hx]%elem_of_cons [->|Hy]%elem_of_cons Heq; [done| | |by eauto].
  - destruct Hz. rewrite Heq. by apply list_elem_of_fmap_2.
  - destruct Hz. rewrite <-Heq. by apply list_elem_of_fmap_2.
Qed.

Lemma GetConversationsByUsername_members username db :
  ∃ cs,
    GetConversationsByUsername None username db = (cs, None)
    ∧ (∀ c, c ∈ cs ↔ c ∈ conversations db ∧ member_of (conv_ID c) username db)
    ∧ StronglySorted newest_conversation_first cs.
Proof.
  eexists. split; [reflexivity|]. split.
  - intros c. rewrite foldr_insert_conv_Permutation, list_elem_of_bind.
    unfold member_of. rewrite Exists_exists. split.
    + intros (c' & (m & Hc & [Hu Hm]%list_elem_of_filter)%list_elem_of_bind
              & Hc').
      destruct (decide _) as [Hid|]; [|by apply elem_of_nil in Hc].
      apply list_elem_of_singleton in Hc as ->.
      split; [done|]. exists m. by repeat split.
    + intros (Hc & m & Hm & Hid & Hu). exists c. split; [|done].
      apply list_elem_of_bind. exists m.
      split; [|by apply list_elem_of_filter].
      rewrite decide_True by done. by apply list_elem_of_singleton.
  - induction (_ ≫= _) as [|c l IH]; simpl;
      [constructor | by apply insert_conv_desc_sorted].
Qed.

(** The conversations listed for a user are exactly the rows of
    [conversations] the user has a membership row for, newest first, and
    each of them once when the tables respect their keys. *)
Theorem GetConversationsByUsername_exact username db :
  ∃ cs,
    GetConversationsByUsername None username db = (cs, None)
    ∧ (∀ c, c ∈ cs ↔ c ∈ conversations db ∧ member_of (conv_ID c) username db)
    ∧ StronglySorted newest_conversation_first cs
    ∧ (schema_ok db → NoDup cs).
Proof.
  destruct (GetConversationsByUsername_members username db)
    as (cs & Hcs & Hiff & Hsorted).
  exists cs. split_and!; [done..|].
  injection Hcs as <-.
  intros (_ & Hids & _ & Hkeys). rewrite foldr_insert_conv_Permutation.
  apply NoDup_bind.
  - intros c1 c2 c _ _
      (m1 & Hc1 & _)%list_elem_of_bind (m2 & Hc2 & _)%list_elem_of_bind.
    destruct (decide _); [|by apply elem_of_nil in Hc1].
    destruct (decide _); [|by apply elem_of_nil in Hc2].
    apply list_elem_of_singleton in Hc1, Hc2. congruence.
  - intros c Hc. apply NoDup_bind.
    + intros m1 m2 c' [Hu1 Hm1]%list_elem_of_filter
        [Hu2 Hm2]%list_elem_of_filter Hc1 Hc2.
      destruct (decide _) as [Hid1|]; [|by apply elem_of_nil in Hc1].
      destruct (decide _) as [Hid2|]; [|by apply elem_of_nil in Hc2].
      apply (NoDup_fmap_eq member_key (members db)); [done..|].
      unfold member_key. congruence.
    + intros m _. destruct (decide _); [apply NoDup_singleton|constructor].
    + apply NoDup_filter. by eapply NoDup_fmap_1.
  - by eapply NoDup_fmap_1.
Qed.

End more_storage_facts.

(** ** Sessions *)

Section session_facts.
Import strings_pkg.

Lemma hex_digit_not_space c : is_hex_digit c = true → Ascii.is_space c = false.
Proof. destruct c as [[] [] [] [] [] [] [] []]; done. Qed.

Lemma trim_left_hex s : all_chars is_hex_digit s = true → trim_left s = s.
Proof.
  destruct s as [|c s]; [done|]. simpl.
  intros [Hc _]%andb_true_iff. by rewrite hex_digit_not_space.
Qed.

Lemma all_chars_rev_app P s1 : ∀ s2,
  all_chars P (String.rev_app s1 s2) = all_chars P s1 && all_chars P s2.
Proof.
  induction s1 as [|c s1 IH]; intros s2; simpl; [done|].
  rewrite IH. simpl. by destruct (P c), (all_chars P s1), (all_chars P s2).
Qed.

Lemma rev_app_rev_app s1 : ∀ s2 s3,
  String.rev_app (String.rev_app s1 s2) s3
    = String.rev_app s2 (s1 +:+ s3).
Proof.
  induction s1 as [|c s1 IH]; intros s2 s3; simpl; [done|].
  by rewrite IH.
Qed.

Lemma append_empty_r s : s +:+ EmptyString = s.
Proof.
  induction s as [|c s IH]; [done|].
  change (String c s +:+ EmptyString) with (String c (s +:+ EmptyString)).
  by rewrite IH.
Qed.

Lemma String_rev_involutive s : String.rev (String.rev s) = s.
Proof.
  unfold String.rev. rewrite rev_app_rev_app. simpl. apply append_empty_r.
Qed.

(** White space is trimmed from both ends only: a string of hexadecimal
    digits is kept as it is. *)
Lemma TrimSpace_hex s : all_chars is_hex_digit s = true → TrimSpace s = s.
Proof.
  intros Hs. unfold TrimSpace. rewrite (trim_left_hex s) by done.
  rewrite trim_left_hex; [apply String_rev_involutive|].
  unfold String.rev. rewrite all_chars_rev_app, Hs. done.
Qed.

Lemma Create_token_cookie f now username (s : auth.Store) :
  ∃ token,
    auth.Create (rand.Bytes f) now username s
      = ((token, None), <[token := auth.mkEntry username now]> s)
    ∧ String.length token = 64%nat
    ∧ auth.FromRequest [(auth.sessionCookieName, token)] = Some token.
Proof.
  destruct (generateToken_hex f) as (token & Hgen & Hlen & Hhex).
  exists token. unfold auth.Create. rewrite Hgen.
  split_and!; [done | done |].
  unfold auth.FromRequest, auth.Cookie. rewrite filter_cons.
  rewrite decide_True by done. simpl. rewrite TrimSpace_hex by done.
  by destruct (decide (token = EmptyString)) as [->|].
Qed.

(** A session that was created is found again: the token is 64
    hexadecimal digits, the cookie carrying it gives it back unchanged, the
    store answers with the user name the session was created for, and the
    sessions under other tokens are as before. *)
Theorem session_Create_then_Get f now username (s : auth.Store) :
  ∃ token,
    auth.Create (rand.Bytes f) now username s
      = ((token, None), <[token := auth.mkEntry username now]> s)
    ∧ String.length token = 64%nat
    ∧ auth.FromRequest [(auth.sessionCookieName, token)] = Some token
    ∧ auth.Get token (auth.Create (rand.Bytes f) now username s).2
      = Some (auth.mkSession username)
    ∧ ∀ token', token' ≠ token →
        auth.Get token' (auth.Create (rand.Bytes f) now username s).2
        = auth.Get token' s.
Proof.
  destruct (Create_token_cookie f now username s)
    as (token & Hcreate & Hlen & Hcookie).
  exists token. rewrite Hcreate. cbn [snd].
  split_and!; [done | done | done | |].
  - unfold auth.Get, auth.Store in *. by rewrite lookup_insert_eq.
  - intros token' Hne. unfold auth.Get, auth.Store in *.
    by rewrite lookup_insert_ne.
Qed.

End session_facts.

(** ** The conversation handlers *)

Section conversation_facts.
Import conversations.

(** A join with a known invite code signs the user in: the answer is
    success and sets the session cookie; the user is a member of the
    conversation; a request carrying that cookie is the user's; the video
    listing of the conversation is then open to it.  Files, videos and
    conversations are as before. *)
Theorem Join_then_signed_in env r w inviteCode username c f :
  jn_body r = Some (inviteCode, username) →
  inviteCode ≠ EmptyString → username ≠ EmptyString →
  storage.GetConversationByInviteCode None inviteCode (db w) = (Some c, None) →
  jn_lookup_drv env = None → jn_addmember_drv env = None →
  jn_token_source env = rand.Bytes f →
  ∃ token w',
    Join env r w =
      (http.mkResponse http.StatusOK
         (http.Object [("conversation_id", storage.conv_ID c);
                       ("username", username)]) (Some token), w')
    ∧ storage.member_of (storage.conv_ID c) username (db w')
    ∧ authenticated [(auth.sessionCookieName, token)] w'
      = Some (auth.mkSession username)
    ∧ fs w' = fs w
    ∧ storage.videos (db w') = storage.videos (db w)
    ∧ storage.conversations (db w') = storage.conversations (db w)
    ∧ (storage.conv_ID c ≠ EmptyString →
       ∀ h,
         videos.List h (videos.mkListEnv None None)
           (videos.mkListRequest [(auth.sessionCookieName, token)]
              (storage.conv_ID c)) w'
         = (http.mkResponse http.StatusOK
              (http.VideoList
                 (videos.to_item <$>
                    (storage.GetVideosByConversation None (storage.conv_ID c)
                       (db w)).1)) None, w')).
Proof.
  intros Hbody Hcode Huser Hget Hl Ha Hsrc.
  destruct (Create_token_cookie f (jn_now env) username (sessions w))
    as (token & Hcreate & _ & Hcookie).
  unfold Join. rewrite Hbody. cbv beta iota.
  rewrite decide_False by (by intros [?|?]).
  rewrite Hl, Hget, Ha, Hsrc.
  destruct (storage.AddMember None _ _ _ _) as [e db1] eqn:Hadd.
  assert (e = None ∧ storage.member_of (storage.conv_ID c) username db1
          ∧ storage.videos db1 = storage.videos (db w)
          ∧ storage.conversations db1 = storage.conversations (db w))
    as (-> & Hmember & Hvideos & Hconvs).
  { pose proof (AddMember_member_of (jn_now env) (storage.conv_ID c) username
                  (db w)) as Hm.
    pose proof (AddMember_videos None (jn_now env) (storage.conv_ID c)
                  username (db w)) as Hv.
    pose proof (AddMember_conversations None (jn_now env) (storage.conv_ID c)
                  username (db w)) as Hc.
    rewrite Hadd in Hm, Hv, Hc. split_and!; try done.
    revert Hadd. unfold storage.AddMember. by destruct (decide _); intros [= <- _]. }
  rewrite Hcreate. exists token. eexists. split; [reflexivity|].
  assert (Hauth : authenticated [(auth.sessionCookieName, token)]
                    (with_sessions
                       (<[token:=auth.mkEntry username (jn_now env)]>
                          (sessions w)) (with_db db1 w))
                  = Some (auth.mkSession username)).
  { unfold authenticated. rewrite Hcookie. simpl.
    unfold auth.Get, auth.Store in *. by rewrite lookup_insert_eq. }
  split_and!; try done.
  intros Hid h. rewrite (List_member h _ _ _ (auth.mkSession username));
    try done.
  simpl. unfold storage.GetVideosByConversation. by rewrite Hvideos.
Qed.

(** A join is turned away without any change when its body does not
    decode or lacks the invite code or the user name (bad request), and
    when no conversation has the invite code (unauthorized).  No join ever
    touches a file, a video or a conversation. *)
Theorem Join_rejected env r w :
  (jn_body r = None → Join env r w = (invalid_join_body, w))
  ∧ (∀ inviteCode username,
       jn_body r = Some (inviteCode, username) →
       inviteCode = EmptyString ∨ username = EmptyString →
       Join env r w = (invalid_join_body, w))
  ∧ (∀ inviteCode username,
       jn_body r = Some (inviteCode, username) →
       inviteCode ≠ EmptyString → username ≠ EmptyString →
       jn_lookup_drv env = None →
       inviteCode ∉
         (storage.conv_InviteCode <$> storage.conversations (db w)) →
       Join env r w
       = (http.Error "invalid invite code" http.StatusUnauthorized, w))
  ∧ fs (Join env r w).2 = fs w
  ∧ storage.videos (db (Join env r w).2) = storage.videos (db w)
  ∧ storage.conversations (db (Join env r w).2)
    = storage.conversations (db w).
Proof.
  split_and!.
  - intros Hbody. unfold Join. by rewrite Hbody.
  - intros code user Hbody Hempty. unfold Join. rewrite Hbody.
    by rewrite decide_True.
  - intros code user Hbody Hcode Huser Hl Hnone. unfold Join.
    rewrite Hbody. cbv beta iota. rewrite decide_False by (by intros [?|?]).
    rewrite Hl.
    by rewrite GetConversationByInviteCode_unknown.
  - unfold Join. destruct (jn_body r) as [[code user]|]; [|done].
    destruct (decide _); [done|].
    destruct (storage.GetConversationByInviteCode _ _ _) as [[c|] [e|]];
      try done.
    destruct (storage.AddMember _ _ _ _ _) as [[e|] db1]; [done|].
    by destruct (auth.Create _ _ _ _) as [[token [e|]] s1].
  - apply Join_videos.
  - unfold Join. destruct (jn_body r) as [[code user]|]; [|done].
    destruct (decide _); [done|].
    destruct (storage.GetConversationByInviteCode _ _ _) as [[c|] [e|]];
      try done.
    destruct (storage.AddMember _ _ _ _ _) as [[e|] db1] eqn:Hadd;
      pose proof (AddMember_conversations (jn_addmember_drv env)
                    (jn_now env) (storage.conv_ID c) user (db w)) as Hc;
      rewrite Hadd in Hc; [done|].
    by destruct (auth.Create _ _ _ _) as [[token [e|]] s1].
Qed.

(** A conversation that is created can be joined: the answer is
    "created" with a new id of 32 and an invite code of 12 hexadecimal
    digits; the conversation is found by that invite code; its creator is
    a member.  Files, videos and sessions are as before. *)
Theorem Create_then_joinable env r w session name f g :
  authenticated (cr_cookies r) w = Some session →
  cr_name r = Some name → name ≠ EmptyString →
  cr_id_source env = rand.Bytes f → cr_code_source env = rand.Bytes g →
  cr_create_drv env = None → cr_addmember_drv env = None →
  (generateID (rand.Bytes f)).1
    ∉ (storage.conv_ID <$> storage.conversations (db w)) →
  (generateInviteCode (rand.Bytes g)).1
    ∉ (storage.conv_InviteCode <$> storage.conversations (db w)) →
  ∃ id inviteCode w',
    Create env r w =
      (http.mkResponse http.StatusCreated
         (http.Object [("id", id); ("invite_code", inviteCode);
                       ("name", name)]) None, w')
    ∧ String.length id = 32%nat ∧ String.length inviteCode = 12%nat
    ∧ storage.GetConversationByInviteCode None inviteCode (db w')
      = (Some (storage.mkConversation id inviteCode name (cr_now env)), None)
    ∧ storage.member_of id (auth.Username session) (db w')
    ∧ fs w' = fs w ∧ sessions w' = sessions w
    ∧ storage.videos (db w') = storage.videos (db w).
Proof.
  intros Hs Hname Hne Hf Hg Hc Ha Hid Hcode.
  unfold Create. rewrite requireSession_spec, Hs, Hname.
  rewrite decide_False by done. rewrite Hf, Hg, Hc, Ha.
  change (generateID (rand.Bytes f))
    with (rand.EncodeToString (f <$> seq 0 16), @None string) in *.
  change (generateInviteCode (rand.Bytes g))
    with (rand.EncodeToString (g <$> seq 0 6), @None string) in *.
  assert (String.length (rand.EncodeToString (f <$> seq 0 16)) = 32%nat
          ∧ String.length (rand.EncodeToString (g <$> seq 0 6)) = 12%nat)
    as [Hlen1 Hlen2].
  { by rewrite !EncodeToString_length, !length_fmap, !length_seq. }
  set (id := rand.EncodeToString (f <$> seq 0 16)) in *.
  set (code := rand.EncodeToString (g <$> seq 0 6)) in *.
  cbn [fst] in Hid, Hcode. cbv beta iota.
  unfold storage.CreateConversation.
  rewrite decide_False by done. rewrite decide_False by done.
  set (db1 := storage.with_conversations _ _).
  pose proof (AddMember_member_of (cr_now env) id (auth.Username session) db1)
    as Hm.
  pose proof (AddMember_videos None (cr_now env) id (auth.Username session)
                db1) as Hv.
  pose proof (AddMember_conversations None (cr_now env) id
                (auth.Username session) db1) as Hcs.
  destruct (storage.AddMember None _ _ _ _) as [e db2] eqn:Hadd.
  assert (e = None) as ->.
  { revert Hadd. unfold storage.AddMember.
    by destruct (decide _); intros [= <- _]. }
  exists id, code. eexists. split; [reflexivity|].
  simpl in *. split_and!; try done.
  unfold storage.GetConversationByInviteCode. rewrite Hcs. simpl.
  f_equal. rewrite filter_app.
  assert (filter (λ c, storage.conv_InviteCode c = code)
            (storage.conversations (db w)) = []) as ->.
  { apply filter_nil_not_elem. intros c Hin Hc'. apply Hcode.
    rewrite <-Hc'. by apply list_elem_of_fmap_2. }
  rewrite filter_cons. by rewrite decide_True.
Qed.

(** When the creator cannot be added after the conversation was stored,
    the answer is the internal error and nothing is undone: the
    conversation stays in the table, without any member. *)
Theorem Create_member_failure_keeps_conversation
    env r w session name f g e :
  authenticated (cr_cookies r) w = Some session →
  cr_name r = Some name → name ≠ EmptyString →
  cr_id_source env = rand.Bytes f → cr_code_source env = rand.Bytes g →
  cr_create_drv env = None → cr_addmember_drv env = Some e →
  (generateID (rand.Bytes f)).1
    ∉ (storage.conv_ID <$> storage.conversations (db w)) →
  (generateInviteCode (rand.Bytes g)).1
    ∉ (storage.conv_InviteCode <$> storage.conversations (db w)) →
  ∃ w',
    Create env r w = (internal_error, w')
    ∧ storage.conversations (db w')
      = storage.conversations (db w) ++
          [storage.mkConversation (generateID (rand.Bytes f)).1
             (generateInviteCode (rand.Bytes g)).1 name (cr_now env)]
    ∧ storage.members (db w') = storage.members (db w)
    ∧ ∀ username,
        ¬ storage.member_of (generateID (rand.Bytes f)).1 username (db w) →
        ¬ storage.member_of (generateID (rand.Bytes f)).1 username (db w').
Proof.
  intros Hs Hname Hne Hf Hg Hc Ha Hid Hcode.
  unfold Create. rewrite requireSession_spec, Hs, Hname.
  rewrite decide_False by done. rewrite Hf, Hg, Hc, Ha.
  simpl in *. unfold storage.CreateConversation.
  rewrite decide_False by done. rewrite decide_False by done.
  simpl. eexists. split; [reflexivity|]. by split_and!.
Qed.

(** A request to create a conversation is turned away, and changes
    nothing, without a session (unauthorized), without a name (bad
    request), and when the random source fails (internal error). *)
Theorem Create_rejected env r w :
  (authenticated (cr_cookies r) w = None →
   Create env r w
   = (http.Error "unauthorized" http.StatusUnauthorized, w))
  ∧ (∀ session,
       authenticated (cr_cookies r) w = Some session →
       cr_name r = None ∨ cr_name r = Some EmptyString →
       Create env r w
       = (http.Error "invalid body: 'name' is required"
            http.StatusBadRequest, w))
  ∧ (∀ session name e,
       authenticated (cr_cookies r) w = Some session →
       cr_name r = Some name → name ≠ EmptyString →
       cr_id_source env = rand.Broken e ∨ cr_code_source env = rand.Broken e →
       Create env r w = (internal_error, w)).
Proof.
  split_and!.
  - intros Hs. unfold Create. by rewrite requireSession_spec, Hs.
  - intros session Hs [Hn|Hn]; unfold Create;
      rewrite requireSession_spec, Hs, Hn; [done|].
    by rewrite decide_True.
  - intros session name e Hs Hn Hne [Hsrc|Hsrc]; unfold Create;
      rewrite requireSession_spec, Hs, Hn, decide_False by done.
    + by rewrite Hsrc.
    + rewrite Hsrc. by destruct (generateID _) as [id [e'|]].
Qed.

(** The list of conversations a signed-in user gets holds exactly the
    conversations the user is a member of, newest first; without a
    session the answer is "unauthorized"; the world is never changed. *)
Theorem conversations_List_exact env cookies w :
  (authenticated cookies w = None →
   List env cookies w
   = (http.Error "unauthorized" http.StatusUnauthorized, w))
  ∧ (∀ session,
       authenticated cookies w = Some session → ls_query_drv env = None →
       ∃ cs,
         List env cookies w
         = (http.mkResponse http.StatusOK
              (http.ConversationList (to_item <$> cs)) None, w)
         ∧ (∀ c, c ∈ cs ↔
                 c ∈ storage.conversations (db w)
                 ∧ storage.member_of (storage.conv_ID c)
                     (auth.Username session) (db w))
         ∧ StronglySorted newest_conversation_first cs)
  ∧ (List env cookies w).2 = w.
Proof.
  split_and!.
  - intros Hs. unfold List. by rewrite requireSession_spec, Hs.
  - intros session Hs Hq. unfold List. rewrite requireSession_spec, Hs, Hq.
    destruct (GetConversationsByUsername_members (auth.Username session)
                (db w)) as (cs & -> & Hiff & Hsorted).
    by exists cs.
  - apply conversations_List_world.
Qed.

End conversation_facts.

(** ** More on the transcode worker *)

Section more_transcode_facts.
Import videos.
Context (env : TranscodeEnv) (videoID inputPath outputPath : string).

Lemma Remove_frame err path f :
  os.dirs (os.Remove err path f).2 = os.dirs f
  ∧ ∀ p, p ≠ path →
         os.files (os.Remove err path f).2 !! p = os.files f !! p.
Proof.
  unfold os.Remove. destruct (os.files f !! path); [destruct err|]; simpl;
    (split; [done|]); intros p Hp; try done.
  by rewrite lookup_delete_ne.
Qed.

(** A worker leaves alone what is not its own: the world after it differs
    from the world before at most in the two files and in one status. *)
Lemma transcode_from_frame remaining : ∀ attempt w,
  ∃ status,
    (status = "ready" ∨ status = "error")
    ∧ db (transcode_from env videoID inputPath outputPath remaining
            attempt w).1
      = (storage.UpdateVideoStatus (t_update_drv env) videoID status (db w)).2
    ∧ sessions (transcode_from env videoID inputPath outputPath remaining
                  attempt w).1 = sessions w
    ∧ os.dirs (fs (transcode_from env videoID inputPath outputPath remaining
                     attempt w).1) = os.dirs (fs w)
    ∧ ∀ p, p ≠ inputPath → p ≠ outputPath →
        os.files (fs (transcode_from env videoID inputPath outputPath
                        remaining attempt w).1) !! p
        = os.files (fs w) !! p.
Proof.
  induction remaining as [|remaining IH]; intros attempt w.
  - simpl. exists "error".
    destruct (storage.UpdateVideoStatus _ _ _ _) eqn:Hupd.
    simpl. split_and!; try done. by right.
  - pose proof (same_but_run_ffmpeg outputPath (ffmpeg env attempt) w)
      as (Hdb & Hs & Hd & Hf).
    cbn [transcode_from]. cbv zeta.
    set (w1 := with_fs (run_ffmpeg (ffmpeg env attempt) outputPath (fs w)) w)
      in *.
    destruct (ffmpeg_succeeds _).
    + exists "ready".
      pose proof (Remove_frame (t_remove_err env) inputPath (fs w1))
        as [Hd2 Hf2].
      destruct (os.Remove _ _ _) as [rerr fs2].
      destruct (storage.UpdateVideoStatus _ _ _ _) as [uerr db2] eqn:Hupd.
      rewrite Hdb in Hupd. cbn [fst snd db sessions fs with_db with_fs] in *.
      split_and!; [by left | done | done | congruence |].
      intros p Hi Ho. rewrite Hf2 by done. by apply Hf.
    + destruct (IH (S attempt) w1) as (status & Hst & Hdb' & Hs' & Hd' & Hf').
      destruct (transcode_from _ _ _ _ _ _ w1) as [w2 evs]. simpl in *.
      exists status. split_and!; try congruence.
      intros p Hi Ho. rewrite Hf' by done. by apply Hf.
Qed.

(** The worker touches two files and one status: the sessions, the
    directories, every file other than its input and its output, the
    conversations and the members are as before; every video row keeps
    its id, conversation, uploader, file name and time; the rows of other
    videos keep their status. *)
Theorem transcode_frame w :
  let w' := (transcode env videoID inputPath outputPath w).1 in
  sessions w' = sessions w
  ∧ os.dirs (fs w') = os.dirs (fs w)
  ∧ (∀ p, p ≠ inputPath → p ≠ outputPath →
          os.files (fs w') !! p = os.files (fs w) !! p)
  ∧ storage.conversations (db w') = storage.conversations (db w)
  ∧ storage.members (db w') = storage.members (db w)
  ∧ Forall2
      (λ v v', same_but_status v v'
               ∧ (storage.ID v ≠ videoID →
                  storage.Status v' = storage.Status v))
      (storage.videos (db w)) (storage.videos (db w')).
Proof.
  intros w'. subst w'. unfold transcode.
  destruct (transcode_from_frame maxRetries 1 w)
    as (status & _ & Hdb & Hs & Hd & Hf).
  destruct (UpdateVideoStatus_other_tables (t_update_drv env) videoID status
              (db w)) as [Hc Hm].
  split_and!; [done | done | done | by rewrite Hdb | by rewrite Hdb |].
  rewrite Hdb.
  eapply Forall2_impl; [apply UpdateVideoStatus_rows|].
  intros v v' (Hsame & Hother & _). done.
Qed.

Lemma calls_cons kind e evs :
  calls kind (e :: evs) = ((if kind e then 1 else 0) + calls kind evs)%nat.
Proof.
  unfold calls. rewrite filter_cons. by destruct (kind e).
Qed.

Lemma calls_app kind evs1 evs2 :
  calls kind (evs1 ++ evs2) = (calls kind evs1 + calls kind evs2)%nat.
Proof. unfold calls. by rewrite filter_app, length_app. Qed.

Lemma calls_nil kind : calls kind [] = 0%nat.
Proof. done. Qed.

Lemma transcode_from_calls remaining : ∀ attempt w,
  ∃ status err,
    last (transcode_from env videoID inputPath outputPath remaining
            attempt w).2
      = Some (EvUpdateStatus videoID status err)
    ∧ calls is_update
        (transcode_from env videoID inputPath outputPath remaining
           attempt w).2 = 1%nat
    ∧ (calls is_convert
         (transcode_from env videoID inputPath outputPath remaining
            attempt w).2 ≤ remaining)%nat
    ∧ (0 < remaining →
       1 ≤ calls is_convert
             (transcode_from env videoID inputPath outputPath remaining
                attempt w).2)%nat
    ∧ ((status = "ready"
        ∧ calls is_remove
            (transcode_from env videoID inputPath outputPath remaining
               attempt w).2 = 1%nat
        ∧ ∃ k, (attempt ≤ k < attempt + remaining)%nat
               ∧ ffmpeg_succeeds (ffmpeg env k) = true)
       ∨ (status = "error"
          ∧ calls is_remove
              (transcode_from env videoID inputPath outputPath remaining
                 attempt w).2 = 0%nat
          ∧ ∀ k, (attempt ≤ k < attempt + remaining)%nat →
                 ffmpeg_succeeds (ffmpeg env k) = false)).
Proof.
  induction remaining as [|remaining IH]; intros attempt w; simpl.
  - destruct (storage.UpdateVideoStatus _ _ _ _) as [err db1].
    exists "error", err. simpl.
    split_and!; [done | done | done | intros ?; lia |].
    right. split_and!; [done | done |]. intros k Hk. lia.
  - destruct (ffmpeg_succeeds (ffmpeg env attempt)) eqn:Hok.
    + destruct (os.Remove _ _ _) as [rerr fs2].
      destruct (storage.UpdateVideoStatus _ _ _ _) as [uerr db2].
      exists "ready", uerr. simpl.
      split_and!; [done | done | | |].
      * rewrite !calls_cons, calls_nil. simpl. lia.
      * intros _. rewrite !calls_cons, calls_nil. simpl. lia.
      * left. split_and!; [done | done |]. exists attempt. split; [lia|done].
    + set (w1 := with_fs _ w).
      destruct (IH (S attempt) w1)
        as (status & err & Hlast & Hupd & Hconv & _ & Hcases).
      destruct (transcode_from _ _ _ _ _ _ w1) as [w2 evs]. simpl in *.
      exists status, err.
      assert (Hsleep : ∀ kind, kind (EvSleep retryDelay) = false →
                calls kind
                  ((if bool_decide (attempt < maxRetries)%nat
                    then [EvSleep retryDelay] else []) ++ evs)
                = calls kind evs).
      { intros kind Hk. rewrite calls_app. case_bool_decide.
        - by rewrite calls_cons, Hk.
        - done. }
      split_and!.
      * destruct evs as [|e evs]; [done|].
        rewrite last_cons. case_bool_decide; simpl; by rewrite Hlast.
      * by rewrite calls_cons, Hsleep.
      * rewrite calls_cons, Hsleep by done. simpl. lia.
      * intros _. rewrite calls_cons. simpl. lia.
      * rewrite calls_cons, Hsleep by done. simpl.
        destruct Hcases as [(-> & Hrm & k & Hk & Hsucc)|(-> & Hrm & Hall)].
        -- left. split_and!; [done | done |]. exists k. split; [lia|done].
        -- right. split_and!; [done | done |]. intros k Hk.
           destruct (decide (k = attempt)) as [->|]; [done|].
           apply Hall. lia.
Qed.

(** Whatever the converter does, a worker makes between one and
    [maxRetries] conversion attempts and then ends; it writes the status
    exactly once, as its last call; the status is "ready" when one of the
    attempts succeeded and "error" when none did; it asks for the removal
    of the original once in the first case and never in the second. *)
Theorem transcode_calls w :
  ∃ status err,
    last (transcode env videoID inputPath outputPath w).2
      = Some (EvUpdateStatus videoID status err)
    ∧ calls is_update (transcode env videoID inputPath outputPath w).2
      = 1%nat
    ∧ (1 ≤ calls is_convert (transcode env videoID inputPath outputPath w).2
         ≤ maxRetries)%nat
    ∧ ((status = "ready"
        ∧ calls is_remove (transcode env videoID inputPath outputPath w).2
          = 1%nat
        ∧ ∃ k, (1 ≤ k ≤ maxRetries)%nat
               ∧ ffmpeg_succeeds (ffmpeg env k) = true)
       ∨ (status = "error"
          ∧ calls is_remove (transcode env videoID inputPath outputPath w).2
            = 0%nat
          ∧ ∀ k, (1 ≤ k ≤ maxRetries)%nat →
                 ffmpeg_succeeds (ffmpeg env k) = false)).
Proof.
  unfold transcode.
  destruct (transcode_from_calls maxRetries 1 w)
    as (status & err & Hlast & Hupd & Hle & Hge & Hcases).
  exists status, err. split_and!; [done | done | | done |].
  - apply Hge. unfold maxRetries. lia.
  - destruct Hcases as [(-> & Hrm & k & Hk & Hsucc)|(-> & Hrm & Hall)].
    + left. split_and!; [done | done |]. exists k. split; [lia|done].
    + right. split_and!; [done | done |]. intros k Hk. apply Hall. lia.
Qed.

End more_transcode_facts.

(** ** More on the upload handler *)

Section more_upload_facts.
Import videos.
Context (h : Handler) (env : UploadEnv) (r : UploadRequest) (w : World).

(** A signed-in upload with an unusable body is turned away as a bad
    request, and changes nothing: a body over the size limit or not a
    multipart form, no conversation id, or, from a member, no file part.
    When the membership query or the random source fails, the answer is
    the internal error, again without any change. *)
Theorem Upload_input_errors session :
  authenticated (up_cookies r) w = Some session →
  (maxUploadSize < up_body_size r ∨ up_form r = None →
   Upload h env r w
   = (http.Error "request too large or malformed" http.StatusBadRequest,
      w, None))
  ∧ (∀ form,
       ParseMultipartForm r = Some form →
       conversation_id form = EmptyString →
       Upload h env r w
       = (http.Error "'conversation_id' is required" http.StatusBadRequest,
          w, None))
  ∧ (∀ form e,
       ParseMultipartForm r = Some form →
       conversation_id form ≠ EmptyString →
       ismember_drv env = Some e →
       Upload h env r w = (internal_error, w, None))
  ∧ (∀ form,
       ParseMultipartForm r = Some form →
       conversation_id form ≠ EmptyString →
       storage.IsMember (ismember_drv env) (conversation_id form)
         (auth.Username session) (db w) = (true, None) →
       file form = None →
       Upload h env r w
       = (http.Error "file is required" http.StatusBadRequest, w, None))
  ∧ (∀ form header_Filename content e,
       ParseMultipartForm r = Some form →
       conversation_id form ≠ EmptyString →
       storage.IsMember (ismember_drv env) (conversation_id form)
         (auth.Username session) (db w) = (true, None) →
       file form = Some (header_Filename, content) →
       allowedExtensions
         (strings_pkg.ToLower (unicode_lower env)
            (filepath.Ext header_Filename)) = true →
       id_source env = rand.Broken e →
       Upload h env r w = (internal_error, w, None)).
Proof.
  intros Hs. split_and!.
  - intros Hbad. unfold Upload. rewrite requireSession_spec, Hs.
    assert (ParseMultipartForm r = None) as ->; [|done].
    unfold ParseMultipartForm. destruct Hbad as [Hbig| ->].
    + by apply Z.ltb_lt in Hbig as ->.
    + by destruct (_ <? _).
  - intros form Hf Hc. unfold Upload.
    rewrite requireSession_spec, Hs, Hf. by rewrite decide_True.
  - intros form e Hf Hc Hdrv. unfold Upload.
    rewrite requireSession_spec, Hs, Hf, decide_False by done.
    by rewrite Hdrv.
  - intros form Hf Hc Hm Hfile. unfold Upload.
    rewrite requireSession_spec, Hs, Hf, decide_False by done.
    by rewrite Hm, Hfile.
  - intros form fn content e Hf Hc Hm Hfile Hext Hsrc. unfold Upload.
    rewrite requireSession_spec, Hs, Hf, decide_False by done.
    by rewrite Hm, Hfile, Hext, Hsrc.
Qed.

(** Whatever an upload is answered, it leaves the sessions, the
    conversations, the members and the rows of the videos there are
    alone; it adds at most one video row, a "pending" one; it removes no
    directory; and it touches at most one file. *)
Theorem Upload_frame :
  sessions (Upload h env r w).1.2 = sessions w
  ∧ storage.conversations (db (Upload h env r w).1.2)
    = storage.conversations (db w)
  ∧ storage.members (db (Upload h env r w).1.2) = storage.members (db w)
  ∧ (∃ added,
       storage.videos (db (Upload h env r w).1.2)
       = storage.videos (db w) ++ added
       ∧ (length added ≤ 1)%nat
       ∧ Forall (λ v, storage.Status v = "pending") added)
  ∧ os.dirs (fs w) ⊆ os.dirs (fs (Upload h env r w).1.2)
  ∧ ∃ path, ∀ p, p ≠ path →
      os.files (fs (Upload h env r w).1.2) !! p = os.files (fs w) !! p.
Proof.
  pose (P := λ res : http.Response * World * option Task,
    sessions res.1.2 = sessions w
    ∧ storage.conversations (db res.1.2) = storage.conversations (db w)
    ∧ storage.members (db res.1.2) = storage.members (db w)
    ∧ (∃ added,
         storage.videos (db res.1.2) = storage.videos (db w) ++ added
         ∧ (length added ≤ 1)%nat
         ∧ Forall (λ v, storage.Status v = "pending") added)
    ∧ os.dirs (fs w) ⊆ os.dirs (fs res.1.2)
    ∧ ∃ path, ∀ p, p ≠ path →
        os.files (fs res.1.2) !! p = os.files (fs w) !! p).
  change (P (Upload h env r w)).
  assert (Hadd0 : ∃ added : list storage.Video,
            storage.videos (db w) = storage.videos (db w) ++ added
            ∧ (length added ≤ 1)%nat
            ∧ Forall (λ v, storage.Status v = "pending") added).
  { exists []. rewrite app_nil_r.
    split_and!; [done | simpl; lia | constructor]. }
  assert (Hsame : ∀ resp started, P (resp, w, started)).
  { intros resp started. unfold P. simpl.
    split_and!; [done | done | done | exact Hadd0 | first [done | apply union_subseteq_r] |].
    by exists EmptyString. }
  unfold Upload. rewrite requireSession_spec.
  destruct (authenticated _ _) as [session|]; [|apply Hsame].
  destruct (ParseMultipartForm r) as [form|]; [|apply Hsame].
  destruct (decide (conversation_id form = EmptyString)); [apply Hsame|].
  destruct (storage.IsMember _ _ _ _) as [[] [e|]]; try apply Hsame.
  destruct (file form) as [[fn content]|]; [|apply Hsame].
  destruct (negb _); [apply Hsame|].
  destruct (generateID _) as [videoID [e|]]; [apply Hsame|].
  clear Hsame.
  set (convDir := filepath.Join (VideosDir h) (conversation_id form)).
  set (original := originalPath convDir videoID _).
  unfold os.MkdirAll. destruct (mkdir_err env).
  { unfold P. simpl.
    split_and!; [done | done | done | exact Hadd0 | first [done | apply union_subseteq_r] |].
    by exists EmptyString. }
  unfold saveFile, os.Create, os.Copy. destruct (create_err env).
  { unfold P. simpl.
    split_and!; [done | done | done | exact Hadd0 | first [done | apply union_subseteq_r] |].
    by exists EmptyString. }
  destruct (copy_fault env) as [[written e]|].
  { unfold P. simpl.
    split_and!; [done | done | done | exact Hadd0 | first [done | apply union_subseteq_r] |].
    exists original. intros p Hp. by rewrite !lookup_insert_ne. }
  unfold storage.CreateVideo. destruct (createvideo_drv env).
  { unfold P. cbn [fst snd db sessions fs with_db with_fs].
    match goal with
    | |- context [os.Remove ?e ?p ?f] =>
        pose proof (Remove_frame e p f) as [Hd Hf]
    end.
    split_and!; [done | done | done | exact Hadd0 | |].
    - rewrite Hd. simpl. apply union_subseteq_r.
    - exists original. intros p Hp. rewrite Hf by done. simpl.
      by rewrite !lookup_insert_ne. }
  destruct (decide _).
  { unfold P. cbn [fst snd db sessions fs with_db with_fs].
    match goal with
    | |- context [os.Remove ?e ?p ?f] =>
        pose proof (Remove_frame e p f) as [Hd Hf]
    end.
    split_and!; [done | done | done | exact Hadd0 | |].
    - rewrite Hd. simpl. apply union_subseteq_r.
    - exists original. intros p Hp. rewrite Hf by done. simpl.
      by rewrite !lookup_insert_ne. }
  unfold P. simpl. split_and!; [done | done | done | | apply union_subseteq_r |].
  - eexists [_]. split; [done|]. split; [simpl; lia|].
    by apply Forall_singleton.
  - exists original. intros p Hp. by rewrite !lookup_insert_ne.
Qed.

(** An accepted upload shows in the listing of its conversation, under
    the id the answer gave, as "pending" and under the name of the
    uploader, for every member who asks; the listings of the other
    conversations are as before. *)
Theorem Upload_then_listed resp w' started :
  Upload h env r w = (resp, w', started) →
  http.code resp = http.StatusAccepted →
  ∃ session form videoID,
    authenticated (up_cookies r) w = Some session
    ∧ ParseMultipartForm r = Some form
    ∧ resp = http.mkResponse http.StatusAccepted
               (http.Object [("status", "pending"); ("video_id", videoID)])
               None
    ∧ (∀ lenv lr reader,
         authenticated (ls_cookies lr) w' = Some reader →
         ls_conversation_id lr = conversation_id form →
         ls_ismember_drv lenv = None → ls_query_drv lenv = None →
         storage.member_of (conversation_id form) (auth.Username reader)
           (db w') →
         ∃ items,
           List h lenv lr w'
           = (http.mkResponse http.StatusOK (http.VideoList items) None, w')
           ∧ http.mkVideoItem videoID (auth.Username session) "pending"
               (now env) ∈ items)
    ∧ ∀ c', c' ≠ conversation_id form →
        storage.GetVideosByConversation None c' (db w')
        = storage.GetVideosByConversation None c' (db w).
Proof.
  intros HU Hcode.
  destruct (Upload_accepted_inv _ _ _ _ _ _ _ HU Hcode)
    as (session & form & fn & content & videoID & Hs & Hf & Hc & _ & _
        & _ & _ & _ & _ & _ & _ & _ & Hresp & _ & Hdb & _ & _).
  exists session, form, videoID. split_and!; [done | done | done | |].
  - intros lenv lr reader Hr Hconv Hd Hq Hm. rewrite <-Hconv in Hm.
    rewrite (List_member h lenv lr w' reader) by (done || congruence).
    eexists. split; [reflexivity|].
    set (v := storage.mkVideo videoID (conversation_id form)
                (auth.Username session)
                (outputPath
                   (filepath.Join (VideosDir h) (conversation_id form))
                   videoID) "pending" (now env)).
    change (http.mkVideoItem videoID (auth.Username session) "pending"
              (now env)) with (to_item v).
    apply list_elem_of_fmap_2. rewrite Hconv.
    apply (listed_after_append v (db w) (db w')). by rewrite Hdb.
  - intros c' Hne.
    apply (listed_after_append
             (storage.mkVideo videoID (conversation_id form)
                (auth.Username session)
                (outputPath
                   (filepath.Join (VideosDir h) (conversation_id form))
                   videoID) "pending" (now env)) (db w) (db w'));
      [by rewrite Hdb | done].
Qed.

End more_upload_facts.

(** ** The server, over any run *)

Section server_facts.
Context (h : videos.Handler).

Lemma stored_trans db1 db2 db3 : stored db1 db2 → stored db2 db3 → stored db1 db3.
Proof. intros H12 H23. induction H23; [done | by constructor..]. Qed.

Lemma stored_one_CreateVideo drv now id c u f db :
  stored db (storage.CreateVideo drv now id c u f db).2.
Proof. constructor. constructor. Qed.

Lemma stored_one_AddMember drv now c u db :
  stored db (storage.AddMember drv now c u db).2.
Proof. constructor. constructor. Qed.

Lemma Join_effect env r w :
  stored (db w) (db (conversations.Join env r w).2)
  ∧ fs (conversations.Join env r w).2 = fs w
  ∧ ∀ token, is_Some (sessions w !! token) →
             is_Some (sessions (conversations.Join env r w).2 !! token).
Proof.
  unfold conversations.Join.
  destruct (conversations.jn_body r) as [[code user]|];
    [|by split_and!; [constructor|..]].
  destruct (decide _); [by split_and!; [constructor|..]|].
  destruct (storage.GetConversationByInviteCode _ _ _) as [[c|] [e|]];
    try by split_and!; [constructor|..].
  pose proof (stored_one_AddMember (conversations.jn_addmember_drv env)
                (conversations.jn_now env) (storage.conv_ID c) user (db w))
    as Hst.
  destruct (storage.AddMember _ _ _ _ _) as [[e|] db1]; [done|].
  unfold auth.Create.
  destruct (auth.generateToken _) as [token [e|]]; [done|].
  split_and!; [done | done |]. intros token' Hin. simpl.
  unfold auth.Store in *.
  destruct (decide (token' = token)) as [->|].
  - rewrite lookup_insert_eq. by eexists.
  - by rewrite lookup_insert_ne.
Qed.

Lemma Create_effect env r w :
  stored (db w) (db (conversations.Create env r w).2)
  ∧ fs (conversations.Create env r w).2 = fs w
  ∧ sessions (conversations.Create env r w).2 = sessions w.
Proof.
  unfold conversations.Create.
  destruct (requireSession _ _) as [|session]; [by split_and!; [constructor|..]|].
  destruct (conversations.cr_name r) as [name|];
    [|by split_and!; [constructor|..]].
  destruct (decide _); [by split_and!; [constructor|..]|].
  destruct (conversations.generateID _) as [id [e|]];
    [by split_and!; [constructor|..]|].
  destruct (conversations.generateInviteCode _) as [code [e|]];
    [by split_and!; [constructor|..]|].
  pose proof (stored_nothing (db w)) as H0.
  pose proof (stored_CreateConversation (db w) (db w)
                (conversations.cr_create_drv env) (conversations.cr_now env)
                id code name H0) as H1.
  destruct (storage.CreateConversation _ _ _ _ _ _) as [[e|] db1]; [done|].
  pose proof (stored_AddMember (db w) db1
                (conversations.cr_addmember_drv env) (conversations.cr_now env)
                id (auth.Username session) H1) as H2.
  simpl in H2.
  by destruct (storage.AddMember _ _ _ _ _) as [[e|] db2].
Qed.

Lemma Upload_effect env r w :
  stored (db w) (db (videos.Upload h env r w).1.2)
  ∧ sessions (videos.Upload h env r w).1.2 = sessions w.
Proof.
  destruct (videos.Upload h env r w) as [[resp w'] started] eqn:HU. simpl.
  destruct (decide (http.code resp = http.StatusAccepted)) as [Hcode|Hcode].
  - destruct (Upload_accepted_inv _ _ _ _ _ _ _ HU Hcode)
      as (session & form & fn & content & videoID & _ & _ & _ & _ & _
          & _ & _ & _ & _ & _ & _ & Hnew & _ & _ & Hdb & Hs & _).
    split; [|done]. rewrite Hdb.
    pose proof (stored_one_CreateVideo None (videos.now env) videoID
                  (videos.conversation_id form) (auth.Username session)
                  (videos.outputPath
                     (filepath.Join (videos.VideosDir h)
                        (videos.conversation_id form)) videoID) (db w)) as Hst.
    unfold storage.CreateVideo in Hst. by rewrite decide_False in Hst.
  - destruct (Upload_not_accepted _ _ _ _ _ _ _ HU Hcode) as (-> & -> & _).
    split; [constructor | done].
Qed.

Lemma worker_step_sessions env k w :
  sessions (videos.worker_step env k w).1 = sessions w.
Proof.
  unfold videos.worker_step. case_bool_decide.
  - destruct (videos.ffmpeg_succeeds _); [|done].
    destruct (os.Remove _ _ _) as [rerr fs2].
    by destruct (storage.UpdateVideoStatus _ _ _ _).
  - by destruct (storage.UpdateVideoStatus _ _ _ _).
Qed.

Lemma worker_step_stored env k w :
  stored (db w) (db (videos.worker_step env k w).1).
Proof.
  destruct (worker_step_cases env k w)
    as [(w' & k' & -> & _ & Hdb) | (w' & status & -> & _ & Hdb)];
    cbn [fst]; rewrite Hdb.
  - constructor.
  - constructor. constructor.
Qed.

Lemma step_effect a s :
  stored (db (world s)) (db (world (step h a s)))
  ∧ ∀ token, is_Some (sessions (world s) !! token) →
             is_Some (sessions (world (step h a s)) !! token).
Proof.
  destruct a as [env r|env r|env cookies|env r|env r|i env]; simpl.
  - destruct (Join_effect env r (world s)) as (? & _ & ?). done.
  - destruct (Create_effect env r (world s)) as (? & _ & ->). done.
  - rewrite conversations_List_world. split; [constructor | done].
  - pose proof (Upload_effect env r (world s)) as [Hst Hs].
    destruct (videos.Upload h env r (world s)) as [[resp w'] started].
    simpl in *. by rewrite Hs.
  - rewrite List_world. split; [constructor | done].
  - destruct (workers s !! i) as [k|]; [|split; [constructor | done]].
    pose proof (worker_step_stored env k (world s)) as Hst.
    pose proof (worker_step_sessions env k (world s)) as Hs.
    destruct (videos.worker_step env k (world s)) as [w' [k'|]];
      simpl in *; by rewrite Hs.
Qed.

Lemma run_effect acts : ∀ s,
  stored (db (world s)) (db (world (run h acts s)))
  ∧ ∀ token, is_Some (sessions (world s) !! token) →
             is_Some (sessions (world (run h acts s)) !! token).
Proof.
  induction acts as [|a acts IH]; intros s; simpl.
  - split; [constructor | done].
  - destruct (step_effect a s) as [H1 H2].
    destruct (IH (step h a s)) as [H3 H4].
    split; [by eapply stored_trans | auto].
Qed.

Lemma stored_schema db db' : stored db db' → schema_ok db → schema_ok db'.
Proof.
  intros Hst Hdb. induction Hst; [done|..].
  - by apply CreateVideo_schema.
  - by apply UpdateVideoStatus_schema.
  - by apply CreateConversation_schema.
  - by apply AddMember_schema.
Qed.

Lemma db_extends_refl db : db_extends db db.
Proof. by split_and!. Qed.

Lemma db_extends_trans db1 db2 db3 :
  db_extends db1 db2 → db_extends db2 db3 → db_extends db1 db3.
Proof.
  intros (? & ? & ?) (? & ? & ?). split_and!; by etrans.
Qed.

Lemma stored_extends db db' : stored db db' → db_extends db db'.
Proof.
  intros Hst. induction Hst; [apply db_extends_refl|..];
    (eapply db_extends_trans; [eassumption|]); clear.
  - unfold storage.CreateVideo. destruct drv; [apply db_extends_refl|].
    destruct (decide _); [apply db_extends_refl|].
    split_and!; simpl; [done | done |].
    rewrite fmap_app. by apply prefix_app_r.
  - split_and!; [by destruct drv | by destruct drv |].
    by rewrite UpdateVideoStatus_ids.
  - unfold storage.CreateConversation. destruct drv; [apply db_extends_refl|].
    destruct (decide _); [apply db_extends_refl|].
    destruct (decide _); [apply db_extends_refl|].
    split_and!; simpl; [| done | done]. by apply prefix_app_r.
  - unfold storage.AddMember. destruct drv; [apply db_extends_refl|].
    destruct (decide _); [apply db_extends_refl|].
    split_and!; simpl; [done | | done]. by apply prefix_app_r.
Qed.

Lemma head_filter_prefix {A} (P : A → Prop) `{!∀ x, Decision (P x)}
    (l l' : list A) x :
  l `prefix_of` l' → head (filter P l) = Some x → head (filter P l') = Some x.
Proof.
  intros [k ->] Hhead. rewrite filter_app.
  destruct (filter P l); [done|]. done.
Qed.

(** From a database that respects the keys of its tables, the server
    reaches only such databases, whatever is asked of it and whatever
    fails on the way. *)
Theorem server_keeps_schema acts s :
  schema_ok (db (world s)) → schema_ok (db (world (run h acts s))).
Proof.
  intros Hdb. destruct (run_effect acts s) as [Hst _].
  by apply (stored_schema _ _ Hst).
Qed.

(** The server forgets nothing: over any run every table keeps its rows
    in their places (video rows up to their status) and only grows at
    its end, and every session token stays known.  So a member stays a
    member, an invite code keeps leading to its conversation, and a
    signed-in user stays signed in: no route removes a row or ends a
    session. *)
Theorem server_never_forgets acts s :
  db_extends (db (world s)) (db (world (run h acts s)))
  ∧ (∀ c u, storage.member_of c u (db (world s)) →
            storage.IsMember None c u (db (world (run h acts s)))
            = (true, None))
  ∧ (∀ code c,
       storage.GetConversationByInviteCode None code (db (world s))
       = (Some c, None) →
       storage.GetConversationByInviteCode None code
         (db (world (run h acts s))) = (Some c, None))
  ∧ (∀ cookies,
       is_Some (authenticated cookies (world s)) →
       is_Some (authenticated cookies (world (run h acts s)))).
Proof.
  destruct (run_effect acts s) as [Hst Hs].
  apply stored_extends in Hst. destruct Hst as (Hc & Hm & Hv).
  split_and!; [by split_and! | | |].
  - intros c u Hin. rewrite IsMember_spec, bool_decide_eq_true_2; [done|].
    destruct Hm as [k Hk].
    unfold storage.member_of in *. rewrite Hk, Exists_app. by left.
  - intros code c. unfold storage.GetConversationByInviteCode.
    intros [= Hhead]. f_equal. by eapply head_filter_prefix.
  - intros cookies. unfold authenticated.
    destruct (auth.FromRequest cookies) as [token|]; simpl; [|done].
    unfold auth.Get. rewrite !fmap_is_Some. apply Hs.
Qed.

Lemma uploads_by_members_keep db db' :
  storage.videos db' = storage.videos db →
  storage.members db `prefix_of` storage.members db' →
  uploads_by_members db → uploads_by_members db'.
Proof.
  unfold uploads_by_members, storage.member_of. intros -> [k ->] Hinv.
  eapply Forall_impl; [exact Hinv|].
  intros v Hv. simpl in *. rewrite Exists_app. by left.
Qed.

Lemma uploads_by_members_update drv id status db :
  uploads_by_members db →
  uploads_by_members (storage.UpdateVideoStatus drv id status db).2.
Proof.
  unfold uploads_by_members, storage.member_of.
  destruct drv; [done|]. simpl. rewrite Forall_fmap. intros Hinv.
  eapply Forall_impl; [exact Hinv|].
  intros v Hv. simpl. by destruct (decide _).
Qed.

Lemma step_uploads_by_members a s :
  uploads_by_members (db (world s)) →
  uploads_by_members (db (world (step h a s))).
Proof.
  intros Hinv.
  destruct a as [env r|env r|env cookies|env r|env r|i env]; simpl.
  - destruct (Join_effect env r (world s)) as ((_ & Hm & _)%stored_extends & _).
    eapply uploads_by_members_keep; [apply Join_videos | done | done].
  - destruct (Create_effect env r (world s))
      as ((_ & Hm & _)%stored_extends & _).
    eapply uploads_by_members_keep; [apply Create_videos | done | done].
  - by rewrite conversations_List_world.
  - destruct (videos.Upload h env r (world s)) as [[resp w'] started] eqn:HU.
    simpl.
    destruct (decide (http.code resp = http.StatusAccepted)) as [Hcode|Hcode].
    + destruct (Upload_accepted_inv _ _ _ _ _ _ _ HU Hcode)
        as (session & form & fn & content & videoID & _ & _ & _ & Hmem & _
            & _ & _ & _ & _ & _ & _ & _ & _ & _ & Hdb & _ & _).
      rewrite Hdb. unfold uploads_by_members, storage.member_of in *.
      simpl. apply Forall_app. split; [done|].
      apply Forall_singleton. simpl. by eapply IsMember_true.
    + by destruct (Upload_not_accepted _ _ _ _ _ _ _ HU Hcode) as (-> & _).
  - by rewrite List_world.
  - destruct (workers s !! i) as [k|]; [|done].
    destruct (worker_step_cases env k (world s))
      as [(w' & k' & -> & _ & Hdb) | (w' & status & -> & _ & Hdb)];
      cbn [world]; rewrite Hdb; [done|].
    by apply uploads_by_members_update.
Qed.

(** Videos come from members only: when every video row at the start
    names a member of its conversation as its uploader, so does every
    video row after any run of the server. *)
Theorem server_uploads_by_members acts s :
  uploads_by_members (db (world s)) →
  uploads_by_members (db (world (run h acts s))).
Proof.
  revert s. induction acts as [|a acts IH]; intros s Hinv; [done|].
  simpl. by apply IH, step_uploads_by_members.
Qed.

End server_facts.

(** ** The further properties at the scenario *)

Lemma joined_schema_ok : schema_ok (db scenario.joined).
Proof.
  unfold schema_ok. simpl.
  split_and!; first [apply NoDup_nil_2 | apply NoDup_singleton].
Defined.

Lemma storage_keeps_schema_witness :
  schema_ok (storage.AddMember None 3 "conv-1" "bob" (db scenario.joined)).2.
Proof.
  destruct (storage_keeps_schema (db scenario.joined) joined_schema_ok)
    as (_ & _ & _ & Hadd).
  apply Hadd.
Defined.

Lemma Join_then_signed_in_witness :
  ∃ token,
    authenticated [(auth.sessionCookieName, token)]
      (conversations.Join visit.join_calm visit.bob_joins scenario.joined).2
    = Some (auth.mkSession "bob").
Proof.
  destruct (Join_then_signed_in visit.join_calm visit.bob_joins
              scenario.joined "invite-abc" "bob" visit.conv_1
              (λ _, Byte.xcd))
    as (token & w' & HJ & _ & Hauth & _);
    [reflexivity | discriminate | discriminate | reflexivity | reflexivity
    | reflexivity | reflexivity |].
  exists token. rewrite HJ. exact Hauth.
Defined.

Lemma Join_again_witness :
  storage.members
    (db (conversations.Join visit.join_calm visit.bob_joins
           (conversations.Join visit.join_calm visit.bob_joins
              scenario.joined).2).2)
  = storage.members
      (db (conversations.Join visit.join_calm visit.bob_joins
             scenario.joined).2).
Proof.
  destruct (Join_again visit.join_calm visit.join_calm visit.bob_joins
              scenario.joined) as [Hsame _]; [reflexivity | exact Hsame].
Defined.

Lemma Create_then_joinable_witness :
  ∃ id inviteCode,
    (conversations.Create visit.create_calm visit.alice_opens
       scenario.joined).1
    = http.mkResponse http.StatusCreated
        (http.Object [("id", id); ("invite_code", inviteCode);
                      ("name", "Holidays")]) None
    ∧ storage.GetConversationByInviteCode None inviteCode
        (db (conversations.Create visit.create_calm visit.alice_opens
               scenario.joined).2)
      = (Some (storage.mkConversation id inviteCode "Holidays" 9), None).
Proof.
  destruct (Create_then_joinable visit.create_calm visit.alice_opens
              scenario.joined (auth.mkSession "alice") "Holidays"
              (λ _, Byte.x01) (λ _, Byte.x02))
    as (id & code & w' & HC & _ & _ & Hfound & _);
    [reflexivity | reflexivity | discriminate | reflexivity | reflexivity
    | reflexivity | reflexivity
    | apply (bool_decide_unpack _); vm_compute; exact I
    | apply (bool_decide_unpack _); vm_compute; exact I |].
  exists id, code. rewrite HC. split; [reflexivity | exact Hfound].
Defined.

Lemma Create_member_failure_witness :
  ∃ w',
    conversations.Create visit.members_locked visit.alice_opens
      scenario.joined = (conversations.internal_error, w')
    ∧ length (storage.conversations (db w')) = 2%nat
    ∧ storage.members (db w') = storage.members (db scenario.joined).
Proof.
  destruct (Create_member_failure_keeps_conversation visit.members_locked
              visit.alice_opens scenario.joined (auth.mkSession "alice")
              "Holidays" (λ _, Byte.x01) (λ _, Byte.x02)
              "database is locked")
    as (w' & HC & Hconv & Hmem & _);
    [reflexivity | reflexivity | discriminate | reflexivity | reflexivity
    | reflexivity | reflexivity
    | apply (bool_decide_unpack _); vm_compute; exact I
    | apply (bool_decide_unpack _); vm_compute; exact I |].
  exists w'. split_and!; [exact HC | by rewrite Hconv | exact Hmem].
Defined.

Lemma Upload_input_errors_witness :
  videos.Upload scenario.handler scenario.calm
    (videos.mkUploadRequest [("waffle_session", "tok-alice")] 20480 None)
    scenario.joined
  = (http.Error "request too large or malformed" http.StatusBadRequest,
     scenario.joined, None).
Proof.
  destruct (Upload_input_errors scenario.handler scenario.calm
              (videos.mkUploadRequest [("waffle_session", "tok-alice")]
                 20480 None)
              scenario.joined (auth.mkSession "alice"))
    as (Hbody & _); [reflexivity|].
  apply Hbody. by right.
Defined.

Lemma Upload_record_failure_witness :
  ∃ w',
    videos.Upload scenario.handler scenario.db_locked
      (scenario.upload_of "tok-alice" "clip.mp4") scenario.joined
    = (videos.internal_error, w', None)
    ∧ os.files (fs w') !! scenario.original = None.
Proof.
  destruct (Upload_record_failure scenario.handler scenario.db_locked
              (scenario.upload_of "tok-alice" "clip.mp4") scenario.joined
              (auth.mkSession "alice")
              (videos.mkForm "conv-1" (Some ("clip.mp4", scenario.clip)))
              "clip.mp4" scenario.clip scenario.video_id
              (Errorf "create video" "database is locked")
              (db scenario.joined))
    as (w' & HU & _ & Hfile);
    [reflexivity | reflexivity | discriminate | reflexivity | reflexivity
    | reflexivity | reflexivity | reflexivity | reflexivity | reflexivity
    | reflexivity | reflexivity |].
  exists w'. split; [exact HU | exact Hfile].
Defined.

Lemma Upload_then_listed_witness :
  ∃ videoID items,
    (videos.Upload scenario.handler scenario.calm
       (scenario.upload_of "tok-alice" "clip.mp4") scenario.joined).1.1
    = http.mkResponse http.StatusAccepted
        (http.Object [("status", "pending"); ("video_id", videoID)]) None
    ∧ (videos.List scenario.handler (videos.mkListEnv None None)
         (videos.mkListRequest [("waffle_session", "tok-alice")] "conv-1")
         scenario.uploaded).1
      = http.mkResponse http.StatusOK (http.VideoList items) None
    ∧ http.mkVideoItem videoID "alice" "pending" 5 ∈ items.
Proof.
  destruct (Upload_then_listed scenario.handler scenario.calm
              (scenario.upload_of "tok-alice" "clip.mp4") scenario.joined
              (videos.Upload scenario.handler scenario.calm
                 (scenario.upload_of "tok-alice" "clip.mp4")
                 scenario.joined).1.1
              scenario.uploaded
              (videos.Upload scenario.handler scenario.calm
                 (scenario.upload_of "tok-alice" "clip.mp4")
                 scenario.joined).2)
    as (session & form & videoID & Hs & Hf & Hresp & Hlist & _);
    [vm_compute; reflexivity | reflexivity |].
  vm_compute in Hs. injection Hs as <-.
  vm_compute in Hf. injection Hf as <-.
  destruct (Hlist (videos.mkListEnv None None)
              (videos.mkListRequest [("waffle_session", "tok-alice")]
                 "conv-1") (auth.mkSession "alice"))
    as (items & HL & Hin);
    [reflexivity | reflexivity | reflexivity | reflexivity
    | apply (bool_decide_unpack _); vm_compute; exact I |].
  exists videoID, items. split_and!; [exact Hresp | by rewrite HL | exact Hin].
Defined.

Lemma server_keeps_schema_witness :
  schema_ok (db (world scenario.server_uploaded)).
Proof.
  apply (server_keeps_schema scenario.handler
           [ActUpload scenario.calm (scenario.upload_of "tok-alice" "clip.mp4")]
           (boot scenario.joined)).
  exact joined_schema_ok.
Defined.

Lemma server_uploads_by_members_witness :
  uploads_by_members (db (world scenario.server_uploaded)).
Proof.
  apply (server_uploads_by_members scenario.handler
           [ActUpload scenario.calm (scenario.upload_of "tok-alice" "clip.mp4")]
           (boot scenario.joined)).
  apply Forall_nil_2.
Defined.
